(** * npc_ephys.newscale: manipulator coordinates from a NewScale log

    A shallow embedding of [src/npc_ephys/newscale.py]: the static
    registry of manipulator serial numbers, the z-axis inversion
    heuristic [is_z_inverted], the travel lookup [get_z_travel] and the
    data-frame pipeline of [get_newscale_coordinates].

    Python dicts and sets are stdpp [gmap]s and [gset]s, a data frame is
    a list of row records, datetimes are integer microsecond counts and
    exceptions are the [Err] results of a small error monad.  A float
    is the rational it denotes: arithmetic on readings is exact, and
    there is no NaN, so a null coordinate is outside the model.  The
    casts of text to floats belong to polars and are parameters of the
    pipeline.  Polars does not say which of several rows of equal
    movement time a sort puts first, and that decides which rows are
    selected: the two sorts by movement are fields of [Runtime], known
    only by the contract of a sort, as is the binary64 subtraction of
    the z correction.  The order of the groups of [group_by] and of
    equal names in the last sort only permutes the returned rows; for
    these the model takes one order. *)

From Stdlib Require Import ZArith QArith Qround Qabs Lqa Ascii String.
From stdpp Require Import gmap strings list sorting.

Local Open Scope string_scope.
Local Open Scope Z_scope.

(** ** Exceptions *)

(** The three ways the module raises: [IndexError] when the log does
    not cover the experiment date, [ValueError] from [get_z_travel] on
    an unknown serial number, and the error of a strict polars cast of
    a text column to floats. *)
Inductive error : Set :=
  | NoCoverageError
  | UnknownDeviceError
  | MalformedLogError.

Inductive result (A : Type) : Type :=
  | Ok (a : A)
  | Err (e : error).
Arguments Ok {A} a.
Arguments Err {A} e.

(** [raise] short-circuits: the monad of [try]-less Python code. *)
#[global] Instance result_ret : MRet result := λ A a, Ok a.
#[global] Instance result_bind : MBind result := λ A B k m,
  match m with
  | Ok a => k a
  | Err e => Err e
  end.

(** ** The device registry *)

(** Python's [d1 | d2]: the right operand wins on a shared key. *)
Definition dict_or (d1 d2 : gmap string string) : gmap string string := d2 ∪ d1.

Definition NP0 : gmap string string :=
  list_to_map [("SN32148", "A"); ("SN32142", "B"); ("SN32144", "C");
               ("SN32149", "D"); ("SN24272", "D"); ("SN32135", "E");
               ("SN24273", "F")].
Definition NP1 : gmap string string :=
  list_to_map [("SN40911", "A"); ("SN40900", "B"); ("SN40912", "C");
               ("SN40913", "D"); ("SN40914", "E"); ("SN40910", "F")].
Definition NP2 : gmap string string :=
  list_to_map [("SN45356", "A"); ("SN45484", "B"); ("SN45485", "C");
               ("SN45359", "D"); ("SN45482", "E"); ("SN45361", "F")].
Definition NP3 : gmap string string :=
  list_to_map [("SN40906", "A"); ("SN40908", "B"); ("SN40907", "C");
               ("SN41084", "D"); ("SN40903", "E"); ("SN40902", "F")].

Definition SERIAL_NUM_TO_PROBE_LETTER : gmap string string :=
  dict_or (dict_or (dict_or NP0 NP1) NP2) NP3.

Definition SHORT_TRAVEL_SERIAL_NUMBERS : gset string :=
  list_to_set ["SN32148"; "SN32142"; "SN32144"; "SN32149"; "SN32135"; "SN24273"].

Definition SHORT_TRAVEL_RANGE : Z := 6000.
Definition LONG_TRAVEL_RANGE : Z := 15000.

(** [serial_number not in SERIAL_NUM_TO_PROBE_LETTER] raises. *)
Definition get_z_travel (serial_number : string) : result Z :=
  if decide (serial_number ∈ dom SERIAL_NUM_TO_PROBE_LETTER) then
    if decide (serial_number ∈ SHORT_TRAVEL_SERIAL_NUMBERS)
    then Ok SHORT_TRAVEL_RANGE
    else Ok LONG_TRAVEL_RANGE
  else Err UnknownDeviceError.

(** ** The axis inversion detector *)

(** [numpy.rint] on the exact value of a float: the nearest integer,
    a tie going to the even neighbour. *)
Definition rint (q : Q) : Z :=
  let f := Qfloor q in
  match (q - inject_Z f ?= 1 # 2)%Q with
  | Lt => f
  | Gt => f + 1
  | Eq => if Z.even f then f else f + 1
  end.

(** [np.round(v, -2)] divides by [10**2], applies [rint] and multiplies
    back.  The result is integral, so it is kept as the integer it
    equals: a [Counter] key [15000.0] is found by [c[15000]]. *)
Definition np_round_hundreds (v : Q) : Z := rint (v / 100) * 100.

(** [collections.Counter(iterable)]: each element bumps its own count,
    left to right. *)
Definition Counter (keys : list Z) : gmap Z nat :=
  foldl (λ c k, <[k := S (default 0%nat (c !! k))]> c) ∅ keys.

(** [c[k]] on a [Counter]: a missing key reads as [0]. *)
Definition count_of (c : gmap Z nat) (k : Z) : nat := default 0%nat (c !! k).

Definition is_z_inverted (z_values : list Q) : bool :=
  let c := Counter (np_round_hundreds <$> z_values) in
  let is_long_travel := negb (count_of c LONG_TRAVEL_RANGE =? 0)%nat in
  let travel_range :=
    if is_long_travel then LONG_TRAVEL_RANGE else SHORT_TRAVEL_RANGE in
  (count_of c 0 <? count_of c travel_range)%nat.

(** ** Text columns *)

(** [str.strip_chars()] with no argument is Rust's [str::trim]: it
    removes the characters with the Unicode property White_Space.  A
    text is the list of its UTF-8 bytes, so these characters are one,
    two or three bytes long.

    ASCII white space: tab to carriage return, and the space. *)
Definition is_whitespace (c : ascii) : bool :=
  let n := nat_of_ascii c in
  ((9 <=? n) && (n <=? 13) || (n =? 32))%nat.

(** The two-byte white space, U+0085 and U+00A0. *)
Definition is_whitespace2 (c1 c2 : ascii) : bool :=
  let n1 := nat_of_ascii c1 in
  let n2 := nat_of_ascii c2 in
  ((n1 =? 194) && ((n2 =? 133) || (n2 =? 160)))%nat.

(** The three-byte white space: U+1680, U+2000 to U+200A, U+2028,
    U+2029, U+202F, U+205F and U+3000. *)
Definition is_whitespace3 (c1 c2 c3 : ascii) : bool :=
  let n1 := nat_of_ascii c1 in
  let n2 := nat_of_ascii c2 in
  let n3 := nat_of_ascii c3 in
  ((n1 =? 225) && (n2 =? 154) && (n3 =? 128)
   || (n1 =? 226) && (n2 =? 128)
      && ((128 <=? n3) && (n3 <=? 138) || (n3 =? 168) || (n3 =? 169)
          || (n3 =? 175))
   || (n1 =? 226) && (n2 =? 129) && (n3 =? 159)
   || (n1 =? 227) && (n2 =? 128) && (n3 =? 128))%nat.

(** [s] is the UTF-8 text of exactly one white-space character. *)
Definition is_white_space (s : string) : bool :=
  match s with
  | String c1 EmptyString => is_whitespace c1
  | String c1 (String c2 EmptyString) => is_whitespace2 c1 c2
  | String c1 (String c2 (String c3 EmptyString)) => is_whitespace3 c1 c2 c3
  | _ => false
  end.

(** The text after one leading white-space character, if there is one. *)
Definition white_space_prefix (s : string) : option string :=
  match s with
  | EmptyString => None
  | String c1 r1 =>
      if is_whitespace c1 then Some r1 else
      match r1 with
      | EmptyString => None
      | String c2 r2 =>
          if is_whitespace2 c1 c2 then Some r2 else
          match r2 with
          | EmptyString => None
          | String c3 r3 => if is_whitespace3 c1 c2 c3 then Some r3 else None
          end
      end
  end.

Fixpoint strip_start_steps (n : nat) (s : string) : string :=
  match n with
  | O => s
  | S n =>
      match white_space_prefix s with
      | Some rest => strip_start_steps n rest
      | None => s
      end
  end.

Definition strip_chars_start (s : string) : string :=
  strip_start_steps (String.length s) s.

Fixpoint strip_chars_end (s : string) : string :=
  match s with
  | EmptyString => EmptyString
  | String c s' =>
      let kept := String c (strip_chars_end s') in
      if is_white_space kept then EmptyString else kept
  end.

Definition strip_chars (s : string) : string :=
  strip_chars_end (strip_chars_start s).

Definition NBSP : string := String "194" (String "160" EmptyString).
Definition EM_SPACE : string :=
  String "226" (String "128" (String "131" EmptyString)).

(** ** Rows of the data frames *)

(** Datetimes are microsecond counts (polars' [Datetime("us")]); the
    calendar date of a datetime is its day number. *)
Definition MICROSECONDS_PER_DAY : Z := 86400000000.
Definition MICROSECONDS_PER_SECOND : Z := 1000000.
Definition date (dt : Z) : Z := dt `div` MICROSECONDS_PER_DAY.

(** One row of [log.csv] under [NEWSCALE_LOG_COLUMNS].  The timestamp
    is null where the date did not parse; coordinates are still text. *)
Module Event.
Record t : Set := mk {
  last_movement_dt : option Z;
  device_name : string;
  x : string;
  y : string;
  z : string;
  x_virtual : string;
  y_virtual : string;
  z_virtual : string
}.
End Event.

(** A row after [.filter(movement < start.dt).select(NEWSCALE_LOG_COLUMNS[:-3])]:
    the timestamp is no longer null and the virtual columns are gone. *)
Module Row.
Record t : Set := mk {
  last_movement_dt : Z;
  device_name : string;
  x : string;
  y : string;
  z : string
}.
End Row.

(** A row once the coordinate columns are cast to [Float64] and the
    serial number is stripped. *)
Module Coords.
Record t : Set := mk {
  last_movement_dt : Z;
  device_name : string;
  x : Q;
  y : Q;
  z : Q
}.
End Coords.

(** A row of the returned frame.  [last_movement_dt] is kept as the
    datetime that the last statement prints with [astype("str")]. *)
Module Position.
Record t : Set := mk {
  electrode_group_name : string;
  last_movement_dt : Z;
  device_name : string;
  x : Q;
  y : Q;
  z : Q;
  last_movement_time : Z
}.
End Position.

#[global] Instance event_eq_dec : EqDecision Event.t.
Proof. solve_decision. Defined.

#[global] Instance row_eq_dec : EqDecision Row.t.
Proof. solve_decision. Defined.

(** ** The pipeline of [get_newscale_coordinates] *)

(** [df["last_movement_dt"].dt.date()] *)
Definition dates (df : list Event.t) : list (option Z) :=
  (λ e, date <$> Event.last_movement_dt e) <$> df.

Definition is_empty (df : list Event.t) : bool :=
  match df with
  | [] => true
  | _ :: _ => false
  end.

(** The predicate of [recent_df]: the row's date is greater than the
    start date less [timedelta(hours=24)], that is less one day; a
    null date satisfies no comparison. *)
Definition is_recent (start : Z) (e : Event.t) : bool :=
  match Event.last_movement_dt e with
  | Some dt => bool_decide (date start - 1 < date dt)
  | None => false
  end.

Definition recent_df (df : list Event.t) (start : Z) : list Event.t :=
  filter (λ e, is_recent start e) df.

(** [df.filter(movement < start.dt).select(NEWSCALE_LOG_COLUMNS[:-3])] *)
Definition select_before (start : Z) (e : Event.t) : option Row.t :=
  match Event.last_movement_dt e with
  | Some dt =>
      if bool_decide (dt < start)
      then Some (Row.mk dt (Event.device_name e) (Event.x e) (Event.y e) (Event.z e))
      else None
  | None => None
  end.

Definition filter_select (df : list Event.t) (start : Z) : list Row.t :=
  omap (select_before start) df.

(** [sort_by(movement)], ascending. *)
Definition movement_le (a b : Row.t) : Prop :=
  Row.last_movement_dt a ≤ Row.last_movement_dt b.

#[global] Instance movement_le_dec a b : Decision (movement_le a b) :=
  Z_le_dec _ _.

#[global] Instance movement_le_total : Total movement_le.
Proof. intros a b. unfold movement_le. lia. Qed.

#[global] Instance movement_le_trans : Transitive movement_le.
Proof. intros a b c. unfold movement_le. lia. Qed.

#[global] Instance movement_le_refl : Reflexive movement_le.
Proof. intros a. unfold movement_le. lia. Qed.

#[global] Instance movement_ge_total : Total (flip movement_le).
Proof. intros a b. unfold flip, movement_le. lia. Qed.

#[global] Instance movement_ge_trans : Transitive (flip movement_le).
Proof. intros a b c. unfold flip, movement_le. lia. Qed.

(** What the function takes from polars and from Python floats
    without the source fixing it:
    - [sort_by_movement], the [sort_by(movement)] of line 145 on the
      rows of one group, and [sort_descending], the sort behind
      [top_k(6, by=movement)]: each returns the same rows in movement
      order, rows of equal movement time in an order of its own;
    - [float_sub], the binary64 [travel - z] of line 165, whose result
      is the nearest float to the difference. *)
Class Runtime : Type := {
  sort_by_movement : list Row.t → list Row.t;
  sort_by_movement_Permutation rows : sort_by_movement rows ≡ₚ rows;
  sort_by_movement_Sorted rows : Sorted movement_le (sort_by_movement rows);
  sort_descending : list Row.t → list Row.t;
  sort_descending_Permutation rows : sort_descending rows ≡ₚ rows;
  sort_descending_Sorted rows :
    Sorted (flip movement_le) (sort_descending rows);
  float_sub : Z → Q → Q
}.

(** A runtime to run sample logs with: merge sorts, and the exact
    difference, which is the binary64 one on the sample readings. *)
Definition sample_runtime : Runtime := {|
  sort_by_movement := merge_sort movement_le;
  sort_by_movement_Permutation := merge_sort_Permutation movement_le;
  sort_by_movement_Sorted := Sorted_merge_sort movement_le;
  sort_descending := merge_sort (flip movement_le);
  sort_descending_Permutation := merge_sort_Permutation (flip movement_le);
  sort_descending_Sorted := Sorted_merge_sort (flip movement_le);
  float_sub travel z := (inject_Z travel - z)%Q
|}.

(** A runtime whose sorts leave rows of equal movement time in the
    opposite order: of the tied rows of a group, the first logged one
    comes last. *)
Definition first_logged_runtime : Runtime.
Proof.
  refine {|
    sort_by_movement rows := reverse (merge_sort (flip movement_le) rows);
    sort_descending rows := reverse (merge_sort movement_le rows);
    float_sub travel z := (inject_Z travel - z)%Q
  |}.
  - intros rows.
    by rewrite reverse_Permutation, (merge_sort_Permutation (flip movement_le)).
  - intros rows.
    apply (Sorted_reverse (flip movement_le)), (Sorted_merge_sort _).
  - intros rows.
    by rewrite reverse_Permutation, (merge_sort_Permutation movement_le).
  - intros rows. apply (Sorted_reverse movement_le), (Sorted_merge_sort _).
Defined.

Definition group_of (rows : list Row.t) (serial_number : string) : list Row.t :=
  filter (λ r, Row.device_name r = serial_number) rows.

Section selection.
Context {runtime : Runtime}.

(** [.group_by(serial_number).agg(pl.all().sort_by(movement).last())]:
    one row per distinct value of the [device_name] column as logged,
    the last of its group in movement order.  Polars leaves the order
    of the groups open; here they come in the order of [remove_dups],
    and [top_k] and the last sort reorder them. *)
Definition group_by_agg_last (rows : list Row.t) : list Row.t :=
  omap (λ k, last (sort_by_movement (group_of rows k)))
       (remove_dups (Row.device_name <$> rows)).

(** [.top_k(6, by=movement)]: the [k] rows of greatest movement time,
    latest first. *)
Definition top_k (k : nat) (rows : list Row.t) : list Row.t :=
  take k (sort_descending rows).

(** The frame after line 147: the last movement before [start] of each
    logged serial number, capped at six. *)
Definition last_moved (df : list Event.t) (start : Z) : list Row.t :=
  top_k 6 (group_by_agg_last (filter_select df start)).
End selection.

(** [manipulators.replace({k: f"probe{v}" for k, v in ...})]: a value
    that is no key of the mapping is left as it is. *)
Definition probe_names : gmap string string :=
  (λ v, "probe" +:+ v) <$> SERIAL_NUM_TO_PROBE_LETTER.

Definition replace (mapping : gmap string string) (s : string) : string :=
  default s (mapping !! s).

(** [(pl.col("last_movement_dt") - start.dt).dt.total_seconds()]: the
    whole seconds of the duration, the fraction cut off. *)
Definition total_seconds (duration : Z) : Z :=
  duration `quot` MICROSECONDS_PER_SECOND.

(** Ascending order of the [electrode_group_name] column, strings
    compared character by character. *)
Definition name_le (a b : Position.t) : Prop :=
  String.leb (Position.electrode_group_name a) (Position.electrode_group_name b).

#[global] Instance name_le_dec a b : Decision (name_le a b) := _.

Section pipeline.
Context {runtime : Runtime}.
(** Polars' strict casts of a text value to [Float32] and to
    [Float64]: the number read, or nothing where the text is no
    number and the cast raises. *)
Variables cast_f32 cast_f64 : string → option Q.

(** [column.str.strip_chars().cast(dtype)] on one value. *)
Definition str_to_float (cast : string → option Q) (s : string) : result Q :=
  match cast (strip_chars s) with
  | Some v => Ok v
  | None => Err MalformedLogError
  end.

Definition recent_z_values (df : list Event.t) (start : Z) : result (list Q) :=
  mapM (λ e, str_to_float cast_f32 (Event.z e)) (recent_df df start).

(** One inversion state for the whole file. *)
Definition z_inverted_of (df : list Event.t) (start : Z) : result bool :=
  recent_z_values ← recent_z_values df start;
  mret (is_z_inverted recent_z_values).

(** Lines 150 to 156: strip the serial number, cast [x], [y], [z].
    The source casts column by column; every failure raises the same
    error, so going row by row gives the same result. *)
Definition cast_coordinates (r : Row.t) : result Coords.t :=
  x ← str_to_float cast_f64 (Row.x r);
  y ← str_to_float cast_f64 (Row.y r);
  z ← str_to_float cast_f64 (Row.z r);
  mret (Coords.mk (Row.last_movement_dt r) (strip_chars (Row.device_name r)) x y z).

(** The body of the loop at lines 163 to 165; the difference is the
    runtime's binary64 one. *)
Definition correct_z (z_inverted : bool) (r : Coords.t) : result Coords.t :=
  if z_inverted then
    travel ← get_z_travel (Coords.device_name r);
    mret (Coords.mk (Coords.last_movement_dt r) (Coords.device_name r)
            (Coords.x r) (Coords.y r) (float_sub travel (Coords.z r)))
  else mret r.

(** Lines 157 to 159 and 169 to 176: the probe name and the time of
    the last movement relative to the start of the recording. *)
Definition label (start : Z) (r : Coords.t) : Position.t :=
  Position.mk (replace probe_names (Coords.device_name r))
    (Coords.last_movement_dt r) (Coords.device_name r)
    (Coords.x r) (Coords.y r) (Coords.z r)
    (total_seconds (Coords.last_movement_dt r - start)).

(** The function from line 123 on: [df] is the frame that
    [get_newscale_data] read and [start] the recording start time,
    however it was obtained. *)
Definition get_newscale_coordinates (df : list Event.t) (start : Z)
  : result (list Position.t) :=
  if is_empty df || negb (bool_decide (Some (date start) ∈ dates df))
  then Err NoCoverageError
  else
    z_inverted ← z_inverted_of df start;
    rows ← mapM cast_coordinates (last_moved df start);
    rows ← mapM (correct_z z_inverted) rows;
    mret (merge_sort name_le (label start <$> rows)).
End pipeline.

(** ** A reader of plain decimals

    Used to run the pipeline on sample logs: an optional sign, digits,
    and an optional fraction. *)
Definition digit_of (c : ascii) : option Z :=
  let n := nat_of_ascii c in
  if ((48 <=? n) && (n <=? 57))%nat then Some (Z.of_nat n - 48) else None.

Fixpoint read_digits (s : string) (acc : Z) (scale : positive) (frac : bool)
  : option Q :=
  match s with
  | EmptyString => Some (acc # scale)
  | String c s' =>
      if (c =? ".")%char then
        if frac then None else read_digits s' acc scale true
      else
        match digit_of c with
        | Some d =>
            read_digits s' (10 * acc + d)
              (if frac then (10 * scale)%positive else scale) frac
        | None => None
        end
  end.

Definition read_decimal (s : string) : option Q :=
  match s with
  | EmptyString => None
  | String "-" s' =>
      match s' with
      | EmptyString => None
      | _ => Qopp <$> read_digits s' 0 1 false
      end
  | _ => read_digits s 0 1 false
  end.

(** The pipeline on logs whose numbers are plain decimals. *)
Definition resolve : list Event.t → Z → result (list Position.t) :=
  get_newscale_coordinates (runtime := sample_runtime) read_decimal read_decimal.

(** ** Vocabulary of the statements *)

(** How often [k] occurs in a list of rounded readings. *)
Definition occurrences (k : Z) (keys : list Z) : nat :=
  length (filter (λ k', k' = k) keys).

(** The serial numbers, as logged, that moved before [start]. *)
Definition devices_before (df : list Event.t) (start : Z) : gset string :=
  list_to_set (Row.device_name <$> filter_select df start).

(** No two of the rows have the same movement time: every sort by
    movement then gives the same order. *)
Definition tie_free (rows : list Row.t) : Prop :=
  Forall (λ r, Forall (λ r', Row.last_movement_dt r = Row.last_movement_dt r'
                             → r = r') rows) rows.

(** A returned row [p] is the logged row [r] with its serial number
    stripped, its probe name attached and its time made relative. *)
Definition derives (start : Z) (r : Row.t) (p : Position.t) : Prop :=
  Position.last_movement_dt p = Row.last_movement_dt r ∧
  Position.device_name p = strip_chars (Row.device_name r) ∧
  Position.electrode_group_name p =
    replace probe_names (strip_chars (Row.device_name r)) ∧
  Position.last_movement_time p = total_seconds (Row.last_movement_dt r - start).

(** ** Sample logs *)

Definition clock (d h m s : Z) : Z :=
  (((d * 24 + h) * 60 + m) * 60 + s) * MICROSECONDS_PER_SECOND.

Definition movement (dt : Z) (device z : string) : Event.t :=
  Event.mk (Some dt) device " 6278.0" " 6943.5" z " 6278.0" " 6943.5" z.

(** 2023-10-23 14:11:05, the recording of the docstring. *)
Definition start_2023_10_23 : Z := clock 19653 14 11 5.

Definition log_three_probes : list Event.t :=
  [ movement (clock 19652 9 0 0) " SN40911" " 15000.0";
    movement (clock 19652 9 0 5) " SN40900" " 15000.0";
    movement (clock 19653 13 58 1) " SN40911" " 3920.0";
    movement (clock 19653 13 59 30) " SN40912" " 8500.0";
    movement (clock 19653 14 2 12) " SN40900" " 6427.0";
    movement (clock 19653 16 40 0) " SN40911" " 15000.0";
    movement (clock 19653 16 40 9) " SN40900" " 15000.0" ].

Definition log_unknown_device : list Event.t :=
  [ movement (clock 19653 13 58 1) " SN99999" " 3920.0" ].

Definition log_unknown_device_inverted : list Event.t :=
  [ movement (clock 19653 13 58 1) " SN99999" " 3920.0";
    movement (clock 19653 16 40 0) " SN99999" " 6000.0" ].

Definition log_stray_whitespace : list Event.t :=
  [ movement (clock 19653 13 58 1) " SN40911" " 3920.0";
    movement (clock 19653 13 59 30) "SN40911" " 4100.0" ].

Definition log_window : list Event.t :=
  [ movement (clock 19652 9 0 0) " SN40911" " 0.0";
    movement (clock 19653 13 58 1) " SN40911" " 3920.0";
    movement (clock 19658 10 0 0) " SN40911" " 15000.0" ].

Definition log_replaced_manipulator : list Event.t :=
  [ movement (clock 19653 13 58 1) " SN32149" " 3920.0";
    movement (clock 19653 13 59 30) " SN24272" " 4100.0" ].


(** All three coordinate texts of a selected row cast. *)
Definition coordinates_cast (cast_f64 : string → option Q) (r : Row.t) : Prop :=
  is_Some (cast_f64 (strip_chars (Row.x r))) ∧
  is_Some (cast_f64 (strip_chars (Row.y r))) ∧
  is_Some (cast_f64 (strip_chars (Row.z r))).

(** Two logged rows that agree on the five columns the function keeps. *)
Definition same_but_virtual (e e' : Event.t) : Prop :=
  Event.last_movement_dt e = Event.last_movement_dt e' ∧
  Event.device_name e = Event.device_name e' ∧
  Event.x e = Event.x e' ∧ Event.y e = Event.y e' ∧ Event.z e = Event.z e'.

Definition PROBE_LETTERS : list string := ["A"; "B"; "C"; "D"; "E"; "F"].

(** ** More sample logs *)

Definition log_moved_after_start : list Event.t :=
  [ movement (clock 19653 16 40 0) " SN40911" " 15000.0" ].

Definition log_seven_devices : list Event.t :=
  [ movement (clock 19653 13 0 0) " SN32148" " 3100.0";
    movement (clock 19653 13 1 0) " SN40911" " 3200.0";
    movement (clock 19653 13 2 0) " SN40900" " 3300.0";
    movement (clock 19653 13 3 0) " SN40912" " 3400.0";
    movement (clock 19653 13 4 0) " SN40913" " 3500.0";
    movement (clock 19653 13 5 0) " SN40914" " 3600.0";
    movement (clock 19653 13 6 0) " SN40910" " 3700.0" ].

Definition log_malformed_z : list Event.t :=
  [ movement (clock 19653 13 58 1) " SN40911" " 3920.0";
    movement (clock 19653 16 40 0) " SN40900" " n/a" ].

(** Two rows of one manipulator at the same movement time, the first
    with an [x] that is no number. *)
Definition log_tied : list Event.t :=
  [ Event.mk (Some (clock 19653 13 58 1)) " SN40911" " abc" " 6943.5"
      " 3920.0" " 6278.0" " 6943.5" " 3920.0";
    movement (clock 19653 13 58 1) " SN40911" " 4100.0" ].

Definition blank_virtual (e : Event.t) : Event.t :=
  Event.mk (Event.last_movement_dt e) (Event.device_name e)
    (Event.x e) (Event.y e) (Event.z e) EmptyString EmptyString EmptyString.

(** Evaluation of closed goals. *)
Ltac run := vm_compute; reflexivity.
Ltac holds := apply (bool_decide_unpack _); vm_compute; exact I.

(** ** The doctests *)

Example get_z_travel_doctest :
  get_z_travel "SN32144" = Ok 6000 ∧ get_z_travel "SN40911" = Ok 15000.
Proof. split; vm_compute; reflexivity. Qed.

Example is_z_inverted_doctest :
  is_z_inverted [0; 3000; 3000; 0]%Q = false ∧
  is_z_inverted [15000; 3000; 3000; 15000]%Q = true.
Proof. split; vm_compute; reflexivity. Qed.

Example np_round_hundreds_ties :
  np_round_hundreds 6050 = 6000 ∧ np_round_hundreds 6150 = 6200 ∧
  np_round_hundreds (59501 # 10) = 6000 ∧ np_round_hundreds (-50) = 0.
Proof. repeat split; vm_compute; reflexivity. Qed.

Example strip_chars_serial : strip_chars " SN32148" = "SN32148".
Proof. reflexivity. Qed.

Example strip_chars_unicode :
  strip_chars (NBSP +:+ " SN40911" +:+ EM_SPACE +:+ " ") = "SN40911" ∧
  strip_chars " SN 40911 " = "SN 40911" ∧
  strip_chars (NBSP +:+ " ") = EmptyString.
Proof. repeat split; vm_compute; reflexivity. Qed.

(** Which of two tied rows is selected is the runtime's choice, and
    with it whether a text that does not cast is met. *)
Example tied_rows_by_runtime :
  get_newscale_coordinates (runtime := first_logged_runtime)
    read_decimal read_decimal log_tied start_2023_10_23
  = Err MalformedLogError ∧
  ∃ out, get_newscale_coordinates (runtime := sample_runtime)
           read_decimal read_decimal log_tied start_2023_10_23 = Ok out ∧
         Position.z <$> out = [4100.0%Q].
Proof. split; [run|]. eexists. split; run. Qed.

(** The sample logs have no tied rows before the start time: what they
    select does not depend on the runtime. *)
Example sample_logs_tie_free :
  tie_free (filter_select log_three_probes start_2023_10_23) ∧
  tie_free (filter_select log_unknown_device start_2023_10_23) ∧
  tie_free (filter_select log_unknown_device_inverted start_2023_10_23) ∧
  tie_free (filter_select log_stray_whitespace start_2023_10_23) ∧
  tie_free (filter_select log_window start_2023_10_23) ∧
  tie_free (filter_select log_replaced_manipulator start_2023_10_23) ∧
  tie_free (filter_select log_moved_after_start start_2023_10_23) ∧
  tie_free (filter_select log_seven_devices start_2023_10_23) ∧
  tie_free (filter_select log_malformed_z start_2023_10_23).
Proof. split_and!; holds. Qed.

(** ** The registry *)

(** C7: [get_z_travel] gives 6000 for "SN32144" and 15000 for
    "SN40911", raises on every serial number that is no key of the
    registry ("unknown-id" among them), and on a key gives 6000 when it
    is in the short-travel set and 15000 otherwise. *)
Theorem get_z_travel_spec :
  get_z_travel "SN32144" = Ok 6000 ∧
  get_z_travel "SN40911" = Ok 15000 ∧
  get_z_travel "unknown-id" = Err UnknownDeviceError ∧
  (∀ s, s ∉ dom SERIAL_NUM_TO_PROBE_LETTER →
        get_z_travel s = Err UnknownDeviceError) ∧
  (∀ s, s ∈ dom SERIAL_NUM_TO_PROBE_LETTER →
        get_z_travel s =
          Ok (if decide (s ∈ SHORT_TRAVEL_SERIAL_NUMBERS) then 6000 else 15000)).
Proof.
  split_and!; try (vm_compute; reflexivity).
  - intros s Hs. unfold get_z_travel. by rewrite decide_False.
  - intros s Hs. unfold get_z_travel. rewrite decide_True by done.
    by case_decide.
Qed.

Lemma get_z_travel_spec_witness :
  "SN24272" ∈ dom SERIAL_NUM_TO_PROBE_LETTER ∧
  get_z_travel "SN24272" = Ok 15000.
Proof.
  assert (Hin : "SN24272" ∈ dom SERIAL_NUM_TO_PROBE_LETTER).
  { apply elem_of_dom. vm_compute. eauto. }
  split; [exact Hin|].
  destruct get_z_travel_spec as (_ & _ & _ & _ & Hknown).
  rewrite (Hknown "SN24272" Hin). vm_compute. reflexivity.
Defined.

(** ** The inversion detector *)

Lemma rint_nearest q :
  (inject_Z (rint q) - (1 # 2) <= q <= inject_Z (rint q) + (1 # 2))%Q.
Proof.
  unfold rint.
  pose proof (Qfloor_le q) as Hlo.
  pose proof (Qlt_floor q) as Hhi.
  rewrite inject_Z_plus in Hhi. change (inject_Z 1) with 1%Q in Hhi.
  destruct (q - inject_Z (Qfloor q) ?= 1 # 2)%Q eqn:Hc.
  - apply Qeq_alt in Hc.
    destruct (Z.even (Qfloor q)); rewrite ?inject_Z_plus;
      change (inject_Z 1) with 1%Q; split; lra.
  - apply Qlt_alt in Hc. split; lra.
  - apply Qgt_alt in Hc. rewrite inject_Z_plus.
    change (inject_Z 1) with 1%Q. split; lra.
Qed.

Lemma np_round_hundreds_nearest v :
  (inject_Z (np_round_hundreds v) - 50 <= v
     <= inject_Z (np_round_hundreds v) + 50)%Q.
Proof.
  unfold np_round_hundreds. rewrite inject_Z_mult.
  pose proof (rint_nearest (v / 100)) as [Hlo Hhi].
  assert (Hv : (v == (v / 100) * 100)%Q) by field.
  change (inject_Z 100) with 100%Q.
  split; lra.
Qed.

Lemma nearest_of_within (v : Q) (k n : Z) :
  (inject_Z (k * 100) - 50 <= v <= inject_Z (k * 100) + 50)%Q →
  (Qabs (v - inject_Z (k * 100)) <= Qabs (v - inject_Z (n * 100)))%Q.
Proof.
  intros [Hlo Hhi].
  destruct (Z.lt_trichotomy n k) as [Hlt|[->|Hgt]].
  - assert (H : (inject_Z (n * 100) <= inject_Z (k * 100) - 100)%Q).
    { assert (Hz : n * 100 <= k * 100 + - 100) by lia.
      rewrite Zle_Qle, inject_Z_plus in Hz.
      change (inject_Z (-100)) with (-100)%Q in Hz. lra. }
    apply Qabs_case; apply Qabs_case; intros; lra.
  - apply Qle_refl.
  - assert (H : (inject_Z (k * 100) + 100 <= inject_Z (n * 100))%Q).
    { assert (Hz : k * 100 + 100 <= n * 100) by lia.
      rewrite Zle_Qle, inject_Z_plus in Hz.
      change (inject_Z 100) with 100%Q in Hz. lra. }
    apply Qabs_case; apply Qabs_case; intros; lra.
Qed.

Lemma count_of_foldl k keys c :
  count_of (foldl (λ c k, <[k := S (default 0%nat (c !! k))]> c) c keys) k =
  (count_of c k + occurrences k keys)%nat.
Proof.
  revert c. induction keys as [|k' keys IH]; intros c; simpl.
  - unfold occurrences. simpl. lia.
  - rewrite IH. unfold occurrences, count_of. rewrite filter_cons.
    destruct (decide (k' = k)) as [->|Hne].
    + rewrite lookup_insert_eq. simpl. lia.
    + rewrite lookup_insert_ne by done. lia.
Qed.

Lemma count_of_Counter k keys : count_of (Counter keys) k = occurrences k keys.
Proof.
  unfold Counter. rewrite count_of_foldl.
  unfold count_of. by rewrite lookup_empty.
Qed.

Lemma occurrences_pos k keys : (0 < occurrences k keys)%nat ↔ k ∈ keys.
Proof.
  unfold occurrences. split.
  - intros H. destruct (filter _ keys) as [|k' l] eqn:E; [simpl in H; lia|].
    assert (Hin : k' ∈ filter (λ k', k' = k) keys) by (rewrite E; left).
    by apply list_elem_of_filter in Hin as [-> ?].
  - intros H. assert (Hin : k ∈ filter (λ k', k' = k) keys).
    { by apply list_elem_of_filter. }
    destruct (filter _ keys); [by apply elem_of_nil in Hin|simpl; lia].
Qed.

Lemma is_z_inverted_counts z_values :
  let rounded := np_round_hundreds <$> z_values in
  let limit := if decide (15000 ∈ rounded) then 15000 else 6000 in
  is_z_inverted z_values = true ↔
  (occurrences 0 rounded < occurrences limit rounded)%nat.
Proof.
  intros rounded limit. unfold is_z_inverted. fold rounded.
  rewrite !count_of_Counter.
  assert (Hlimit :
    (if negb (occurrences LONG_TRAVEL_RANGE rounded =? 0)%nat
     then LONG_TRAVEL_RANGE else SHORT_TRAVEL_RANGE) = limit).
  { unfold limit, LONG_TRAVEL_RANGE, SHORT_TRAVEL_RANGE.
    pose proof (occurrences_pos 15000 rounded) as Hpos.
    destruct (occurrences 15000 rounded =? 0)%nat eqn:E; simpl.
    - apply Nat.eqb_eq in E. rewrite decide_False; [done|].
      intros Hin. apply Hpos in Hin. lia.
    - apply Nat.eqb_neq in E. rewrite decide_True; [done|].
      apply Hpos. lia. }
  rewrite Hlimit. apply Nat.ltb_lt.
Qed.

(** C3: [is_z_inverted] rounds each reading to a nearest multiple of
    100, takes 15000 as the limit when 15000 is among the rounded
    values and 6000 otherwise, and answers true exactly when the limit
    occurs strictly more often than 0; it is false on [0, 3000, 3000, 0]
    and true on [15000, 3000, 3000, 15000]. *)
Theorem is_z_inverted_spec :
  (∀ v, (∃ n, np_round_hundreds v = n * 100) ∧
        (∀ n, Qabs (v - inject_Z (np_round_hundreds v))
              <= Qabs (v - inject_Z (n * 100)))%Q) ∧
  (∀ z_values,
     let rounded := np_round_hundreds <$> z_values in
     let limit := if decide (15000 ∈ rounded) then 15000 else 6000 in
     is_z_inverted z_values = true ↔
     (occurrences 0 rounded < occurrences limit rounded)%nat) ∧
  is_z_inverted [0; 3000; 3000; 0]%Q = false ∧
  is_z_inverted [15000; 3000; 3000; 15000]%Q = true.
Proof.
  split_and!.
  - intros v. split; [by exists (rint (v / 100))|].
    intros n. apply nearest_of_within, np_round_hundreds_nearest.
  - apply is_z_inverted_counts.
  - vm_compute; reflexivity.
  - vm_compute; reflexivity.
Qed.

(** ** Exceptions in a loop *)

Section mapM_result.
Context {A B : Type} (f : A → result B).

Lemma mapM_cons a l :
  mapM f (a :: l) = b ← f a; bs ← mapM f l; mret (b :: bs).
Proof. reflexivity. Qed.

Lemma mapM_Ok l k : mapM f l = Ok k ↔ Forall2 (λ a b, f a = Ok b) l k.
Proof.
  revert k. induction l as [|a l IH]; intros k.
  - split.
    + intros [= <-]. constructor.
    + by intros ->%Forall2_nil_inv_l.
  - rewrite mapM_cons. split.
    + destruct (f a) as [b|e] eqn:Ha; [|discriminate].
      destruct (mapM f l) as [bs|e] eqn:Hl; [|discriminate].
      intros [= <-]. constructor; [done|by apply IH].
    + intros (b & bs & Hb & Hbs & ->)%Forall2_cons_inv_l.
      apply IH in Hbs. by rewrite Hb, Hbs.
Qed.

Lemma mapM_Err l e : mapM f l = Err e → ∃ a, a ∈ l ∧ f a = Err e.
Proof.
  induction l as [|a l IH]; [discriminate|].
  rewrite mapM_cons.
  destruct (f a) as [b|e'] eqn:Ha.
  - destruct (mapM f l) as [bs|e'] eqn:Hl; [discriminate|].
    intros [= <-]. destruct IH as (a' & Hin & Ha'); [done|].
    exists a'. split; [by right|done].
  - intros [= <-]. exists a. split; [by left|done].
Qed.

Lemma mapM_never_raises l :
  (∀ a, a ∈ l → ∃ b, f a = Ok b) → ∃ k, mapM f l = Ok k.
Proof.
  induction l as [|a l IH]; intros Hall; [by exists []|].
  destruct (Hall a) as [b Hb]; [by left|].
  destruct IH as [bs Hbs]; [intros a' Ha'; apply Hall; by right|].
  exists (b :: bs). by rewrite mapM_cons, Hb, Hbs.
Qed.

End mapM_result.

Lemma Forall2_compose {A B C} (P : A → B → Prop) (Q : B → C → Prop)
    (R : A → C → Prop) l k m :
  (∀ a b c, P a b → Q b c → R a c) →
  Forall2 P l k → Forall2 Q k m → Forall2 R l m.
Proof.
  intros HPQ HP. revert m.
  induction HP; intros m; inversion 1; subst; constructor; eauto.
Qed.

Lemma Forall2_elem_of_l {A B} (P : A → B → Prop) l k a :
  Forall2 P l k → a ∈ l → ∃ b, b ∈ k ∧ P a b.
Proof.
  intros HP [i Hi]%list_elem_of_lookup.
  destruct (Forall2_lookup_l _ _ _ _ _ HP Hi) as (b & Hb & Hab).
  exists b. split; [|done]. apply list_elem_of_lookup. eauto.
Qed.

Lemma Forall2_elem_of_r {A B} (P : A → B → Prop) l k b :
  Forall2 P l k → b ∈ k → ∃ a, a ∈ l ∧ P a b.
Proof.
  intros HP [i Hi]%list_elem_of_lookup.
  destruct (Forall2_lookup_r _ _ _ _ _ HP Hi) as (a & Ha & Hab).
  exists a. split; [|done]. apply list_elem_of_lookup. eauto.
Qed.

(** ** Selecting the last movement of each manipulator *)

Section selected_rows.
Context {runtime : Runtime}.

Lemma select_before_Some start e r :
  select_before start e = Some r ↔
  Event.last_movement_dt e = Some (Row.last_movement_dt r) ∧
  Row.last_movement_dt r < start ∧
  r = Row.mk (Row.last_movement_dt r) (Event.device_name e)
        (Event.x e) (Event.y e) (Event.z e).
Proof.
  unfold select_before. split.
  - destruct (Event.last_movement_dt e) as [dt|]; [|discriminate].
    case_bool_decide; [|discriminate]. by intros [= <-].
  - intros (-> & Hlt & ->). simpl in *. by rewrite bool_decide_eq_true_2.
Qed.

Lemma elem_of_filter_select df start r :
  r ∈ filter_select df start ↔
  ∃ e, e ∈ df ∧
       Event.last_movement_dt e = Some (Row.last_movement_dt r) ∧
       Row.last_movement_dt r < start ∧
       r = Row.mk (Row.last_movement_dt r) (Event.device_name e)
             (Event.x e) (Event.y e) (Event.z e).
Proof.
  unfold filter_select. rewrite list_elem_of_omap.
  by setoid_rewrite select_before_Some.
Qed.

Lemma filter_select_of_event df start e dt :
  e ∈ df → Event.last_movement_dt e = Some dt → dt < start →
  ∃ r, r ∈ filter_select df start ∧
       Row.last_movement_dt r = dt ∧ Row.device_name r = Event.device_name e.
Proof.
  intros Hin Hdt Hlt.
  exists (Row.mk dt (Event.device_name e) (Event.x e) (Event.y e) (Event.z e)).
  split; [|done]. apply elem_of_filter_select. exists e. by simpl.
Qed.

Lemma last_of_sorted {A} (R : relation A) `{!Reflexive R} l x y :
  StronglySorted R l → last l = Some x → y ∈ l → R y x.
Proof.
  intros Hsorted [l' ->]%last_Some Hin.
  apply elem_of_app in Hin as [Hin | ->%list_elem_of_singleton]; [|done].
  eapply StronglySorted_app_1_elem_of; [done..|by left].
Qed.

Lemma agg_last_Some rows k r :
  last (sort_by_movement (group_of rows k)) = Some r →
  r ∈ rows ∧ Row.device_name r = k ∧
  ∀ r', r' ∈ rows → Row.device_name r' = k → movement_le r' r.
Proof.
  intros Hlast.
  assert (Hin : r ∈ group_of rows k).
  { rewrite <- (sort_by_movement_Permutation (group_of rows k)).
    by apply last_Some_elem_of. }
  apply list_elem_of_filter in Hin as [Hk Hin].
  split_and!; [done..|]. intros r' Hin' Hk'.
  eapply (last_of_sorted movement_le); [|done|].
  - apply Sorted_StronglySorted; [apply _|apply sort_by_movement_Sorted].
  - rewrite (sort_by_movement_Permutation (group_of rows k)).
    by apply list_elem_of_filter.
Qed.

Lemma agg_last_is_Some rows k :
  k ∈ Row.device_name <$> rows →
  is_Some (last (sort_by_movement (group_of rows k))).
Proof.
  intros (r & -> & Hin)%list_elem_of_fmap.
  apply last_is_Some. intros Hnil.
  assert (Hr : r ∈ sort_by_movement (group_of rows (Row.device_name r))).
  { rewrite (sort_by_movement_Permutation _).
    by apply list_elem_of_filter. }
  rewrite Hnil in Hr. by apply elem_of_nil in Hr.
Qed.

Lemma group_by_agg_last_names rows :
  Row.device_name <$> group_by_agg_last rows =
  remove_dups (Row.device_name <$> rows).
Proof.
  unfold group_by_agg_last.
  assert (Hkeys : ∀ k, k ∈ remove_dups (Row.device_name <$> rows) →
                       k ∈ Row.device_name <$> rows).
  { intros k. by rewrite elem_of_remove_dups. }
  induction (remove_dups (Row.device_name <$> rows)) as [|k keys IH]; [done|].
  simpl. destruct (agg_last_is_Some rows k) as [r Hr]; [apply Hkeys; by left|].
  rewrite Hr. simpl. apply agg_last_Some in Hr as (_ & -> & _).
  f_equal. apply IH. intros k' Hk'. apply Hkeys. by right.
Qed.

Lemma elem_of_group_by_agg_last rows r :
  r ∈ group_by_agg_last rows →
  r ∈ rows ∧
  ∀ r', r' ∈ rows → Row.device_name r' = Row.device_name r → movement_le r' r.
Proof.
  intros (k & _ & Hlast)%list_elem_of_omap.
  apply agg_last_Some in Hlast as (Hin & <- & Hmax). eauto.
Qed.

Lemma top_k_submseteq k rows : top_k k rows ⊆+ rows.
Proof.
  unfold top_k. transitivity (sort_descending rows).
  - apply sublist_submseteq, sublist_take.
  - by rewrite (sort_descending_Permutation _).
Qed.

Lemma top_k_length k rows : (length (top_k k rows) ≤ k)%nat.
Proof. unfold top_k. rewrite length_take. lia. Qed.

Lemma top_k_NoDup k rows :
  NoDup (Row.device_name <$> rows) → NoDup (Row.device_name <$> top_k k rows).
Proof.
  intros Hrows. unfold top_k. rewrite fmap_take.
  eapply sublist_NoDup; [|apply sublist_take].
  by rewrite (sort_descending_Permutation _).
Qed.

Lemma top_k_all k rows : (length rows ≤ k)%nat → top_k k rows ≡ₚ rows.
Proof.
  intros Hlen. unfold top_k. rewrite take_ge.
  - apply (sort_descending_Permutation _).
  - by rewrite (sort_descending_Permutation _).
Qed.

(** The rows that [top_k] drops moved no later than those it keeps. *)
Lemma top_k_latest k rows r r' :
  r ∈ top_k k rows → r' ∈ rows → r' ∉ top_k k rows → movement_le r' r.
Proof.
  unfold top_k. intros Hr Hr' Hdropped.
  pose proof (Sorted_StronglySorted (flip movement_le) _
                (sort_descending_Sorted rows)) as Hsorted.
  rewrite <- (sort_descending_Permutation _) in Hr'.
  rewrite <- (take_drop k (sort_descending rows)) in Hr', Hsorted.
  apply elem_of_app in Hr' as [Hr'|Hr']; [done|].
  by apply (StronglySorted_app_1_elem_of _ _ _ r r') in Hsorted.
Qed.

Lemma list_to_set_remove_dups (l : list string) :
  list_to_set (remove_dups l) =@{gset string} list_to_set l.
Proof.
  apply set_eq. intros s.
  by rewrite !elem_of_list_to_set, elem_of_remove_dups.
Qed.

Lemma group_by_agg_last_length rows :
  length (group_by_agg_last rows) =
  size (list_to_set (Row.device_name <$> rows) : gset string).
Proof.
  rewrite <- list_to_set_remove_dups, size_list_to_set
    by apply NoDup_remove_dups.
  by rewrite <- group_by_agg_last_names, length_fmap.
Qed.

Lemma elem_of_devices_before df start d :
  d ∈ devices_before df start ↔
  ∃ e dt, e ∈ df ∧ Event.last_movement_dt e = Some dt ∧ dt < start ∧
          Event.device_name e = d.
Proof.
  unfold devices_before. rewrite elem_of_list_to_set, list_elem_of_fmap.
  split.
  - intros (r & -> & (e & Hin & Hdt & Hlt & Hr)%elem_of_filter_select).
    exists e, (Row.last_movement_dt r). rewrite Hr. by simpl.
  - intros (e & dt & Hin & Hdt & Hlt & <-).
    destruct (filter_select_of_event df start e dt) as (r & Hr & _ & Hname);
      [done..|].
    by exists r.
Qed.

Lemma last_moved_length df start : (length (last_moved df start) ≤ 6)%nat.
Proof. apply top_k_length. Qed.

Lemma last_moved_devices df start :
  (length (last_moved df start) ≤ size (devices_before df start))%nat.
Proof.
  unfold last_moved, devices_before.
  rewrite <- group_by_agg_last_length. apply submseteq_length, top_k_submseteq.
Qed.

Lemma last_moved_NoDup df start :
  NoDup (Row.device_name <$> last_moved df start).
Proof.
  apply top_k_NoDup. rewrite group_by_agg_last_names. apply NoDup_remove_dups.
Qed.

Lemma elem_of_last_moved df start r :
  r ∈ last_moved df start →
  r ∈ filter_select df start ∧
  ∀ r', r' ∈ filter_select df start →
        Row.device_name r' = Row.device_name r → movement_le r' r.
Proof.
  intros Hin. apply elem_of_group_by_agg_last.
  eapply elem_of_submseteq; [done|apply top_k_submseteq].
Qed.

Lemma last_moved_complete df start r' :
  (size (devices_before df start) ≤ 6)%nat →
  r' ∈ filter_select df start →
  ∃ r, r ∈ last_moved df start ∧ Row.device_name r = Row.device_name r'.
Proof.
  intros Hsize Hin. unfold last_moved.
  assert (Hname : Row.device_name r' ∈
            Row.device_name <$> group_by_agg_last (filter_select df start)).
  { rewrite group_by_agg_last_names, elem_of_remove_dups.
    by apply list_elem_of_fmap_2. }
  apply list_elem_of_fmap in Hname as (r & Hname & Hr).
  exists r. split; [|done].
  rewrite top_k_all; [done|]. by rewrite group_by_agg_last_length.
Qed.

(** On rows without ties every runtime selects what the sample
    runtime selects. *)
Lemma tie_free_subseteq rows rows' :
  rows' ⊆ rows → tie_free rows → tie_free rows'.
Proof.
  unfold tie_free. rewrite !Forall_forall. intros Hsub Hfree r Hr.
  rewrite Forall_forall. intros r' Hr'.
  specialize (Hfree r (Hsub r Hr)). rewrite Forall_forall in Hfree.
  by apply Hfree, Hsub.
Qed.

Lemma tie_free_eq rows r r' :
  tie_free rows → r ∈ rows → r' ∈ rows →
  movement_le r r' → movement_le r' r → r = r'.
Proof.
  unfold tie_free, movement_le. rewrite Forall_forall. intros Hfree Hr Hr' ??.
  specialize (Hfree r Hr). rewrite Forall_forall in Hfree.
  apply Hfree; [done|lia].
Qed.

Lemma sort_by_movement_tie_free rows :
  tie_free rows → sort_by_movement rows = merge_sort movement_le rows.
Proof.
  intros Hfree. apply (Sorted_unique_strong movement_le).
  - intros r r' Hr Hr' ??.
    rewrite sort_by_movement_Permutation in Hr.
    rewrite (merge_sort_Permutation movement_le) in Hr'.
    by apply (tie_free_eq rows).
  - apply sort_by_movement_Sorted.
  - apply (Sorted_merge_sort movement_le).
  - by rewrite sort_by_movement_Permutation,
         (merge_sort_Permutation movement_le).
Qed.

Lemma sort_descending_tie_free rows :
  tie_free rows → sort_descending rows = merge_sort (flip movement_le) rows.
Proof.
  intros Hfree. apply (Sorted_unique_strong (flip movement_le)).
  - intros r r' Hr Hr' ??.
    rewrite sort_descending_Permutation in Hr.
    rewrite (merge_sort_Permutation (flip movement_le)) in Hr'.
    by apply (tie_free_eq rows).
  - apply sort_descending_Sorted.
  - apply (Sorted_merge_sort (flip movement_le)).
  - by rewrite sort_descending_Permutation,
         (merge_sort_Permutation (flip movement_le)).
Qed.

Lemma group_by_agg_last_tie_free rows :
  tie_free rows →
  group_by_agg_last rows = group_by_agg_last (runtime := sample_runtime) rows.
Proof.
  intros Hfree. unfold group_by_agg_last.
  induction (remove_dups (Row.device_name <$> rows)) as [|k keys IH]; [done|].
  simpl. rewrite sort_by_movement_tie_free.
  - destruct (last _); [f_equal|]; exact IH.
  - eapply tie_free_subseteq; [|done].
    intros r Hr. by apply list_elem_of_filter in Hr as [_ ?].
Qed.

Lemma last_moved_tie_free df start :
  tie_free (filter_select df start) →
  last_moved df start = last_moved (runtime := sample_runtime) df start.
Proof.
  intros Hfree. unfold last_moved, top_k.
  rewrite <- group_by_agg_last_tie_free by done.
  rewrite sort_descending_tie_free; [done|].
  eapply tie_free_subseteq; [|done].
  intros r Hr. by apply elem_of_group_by_agg_last in Hr as [? _].
Qed.

(** ** The steps after the selection *)

Lemma str_to_float_Err cast s e :
  str_to_float cast s = Err e → e = MalformedLogError.
Proof. unfold str_to_float. destruct (cast _); by intros [= <-]. Qed.

Lemma str_to_float_Ok cast s v :
  str_to_float cast s = Ok v ↔ cast (strip_chars s) = Some v.
Proof.
  unfold str_to_float. destruct (cast _); split; intros [= ->] || discriminate;
    done.
Qed.

Lemma correct_z_Ok flag c c' :
  correct_z flag c = Ok c' →
  Coords.last_movement_dt c' = Coords.last_movement_dt c ∧
  Coords.device_name c' = Coords.device_name c.
Proof.
  unfold correct_z. destruct flag; [|by intros [= <-]].
  destruct (get_z_travel _); [|discriminate]. by intros [= <-].
Qed.

Lemma correct_z_Err flag c e :
  correct_z flag c = Err e →
  e = UnknownDeviceError ∧ flag = true ∧
  Coords.device_name c ∉ dom SERIAL_NUM_TO_PROBE_LETTER.
Proof.
  unfold correct_z, get_z_travel. destruct flag; [|discriminate].
  case_decide; [case_decide; discriminate|]. by intros [= <-].
Qed.

Lemma correct_z_unknown c :
  Coords.device_name c ∉ dom SERIAL_NUM_TO_PROBE_LETTER →
  correct_z true c = Err UnknownDeviceError.
Proof. intros Hc. unfold correct_z, get_z_travel. by rewrite decide_False. Qed.

Lemma total_seconds_before dt start : dt < start → total_seconds (dt - start) ≤ 0.
Proof.
  intros Hlt. unfold total_seconds, MICROSECONDS_PER_SECOND.
  change 0 with (0 `quot` 1000000). apply Z.quot_le_mono; lia.
Qed.

#[global] Instance name_le_total : Total name_le.
Proof.
  intros a b. unfold name_le.
  destruct (String.leb_total (Position.electrode_group_name a)
              (Position.electrode_group_name b)) as [H|H];
    rewrite H; [by left|by right].
Qed.

Section resolve_facts.
Context (cast_f32 cast_f64 : string → option Q).

Lemma cast_coordinates_Ok r c :
  cast_coordinates cast_f64 r = Ok c →
  Coords.last_movement_dt c = Row.last_movement_dt r ∧
  Coords.device_name c = strip_chars (Row.device_name r).
Proof.
  unfold cast_coordinates.
  destruct (str_to_float _ (Row.x r)); [|discriminate].
  destruct (str_to_float _ (Row.y r)); [|discriminate].
  destruct (str_to_float _ (Row.z r)); [|discriminate].
  by intros [= <-].
Qed.

Lemma cast_coordinates_Err r e :
  cast_coordinates cast_f64 r = Err e → e = MalformedLogError.
Proof.
  unfold cast_coordinates.
  destruct (str_to_float _ (Row.x r)) eqn:Hx;
    [|intros [= <-]; by eapply str_to_float_Err].
  destruct (str_to_float _ (Row.y r)) eqn:Hy;
    [|intros [= <-]; by eapply str_to_float_Err].
  destruct (str_to_float _ (Row.z r)) eqn:Hz;
    [|intros [= <-]; by eapply str_to_float_Err].
  discriminate.
Qed.

Lemma cast_coordinates_parses r :
  is_Some (cast_f64 (strip_chars (Row.x r))) →
  is_Some (cast_f64 (strip_chars (Row.y r))) →
  is_Some (cast_f64 (strip_chars (Row.z r))) →
  ∃ c, cast_coordinates cast_f64 r = Ok c.
Proof.
  intros [x Hx] [y Hy] [z Hz]. unfold cast_coordinates, str_to_float.
  rewrite Hx, Hy, Hz. eauto.
Qed.

Lemma z_inverted_of_Err df start e :
  z_inverted_of cast_f32 df start = Err e → e = MalformedLogError.
Proof.
  unfold z_inverted_of, recent_z_values.
  destruct (mapM _ _) eqn:Hz; [discriminate|]. intros [= <-].
  apply mapM_Err in Hz as (a & _ & Ha). by eapply str_to_float_Err.
Qed.

(** The check at line 129. *)
Lemma coverage_check df start :
  is_empty df || negb (bool_decide (Some (date start) ∈ dates df)) = false ↔
  Some (date start) ∈ dates df.
Proof.
  split.
  - intros [_ H]%orb_false_elim. apply negb_false_iff in H.
    by apply bool_decide_eq_true in H.
  - intros Hin. apply orb_false_intro.
    + destruct df; [by apply elem_of_nil in Hin|done].
    + by rewrite bool_decide_eq_true_2.
Qed.

Lemma elem_of_dates df start :
  Some (date start) ∈ dates df ↔
  ∃ e dt, e ∈ df ∧ Event.last_movement_dt e = Some dt ∧ date dt = date start.
Proof.
  unfold dates. rewrite list_elem_of_fmap. split.
  - intros (e & He & Hin).
    destruct (Event.last_movement_dt e) as [dt|] eqn:Hdt; [|discriminate].
    injection He as He. eauto.
  - intros (e & dt & Hin & Hdt & Hdate). exists e. by rewrite Hdt, <- Hdate.
Qed.

Lemma get_newscale_coordinates_covered df start :
  Some (date start) ∈ dates df →
  get_newscale_coordinates cast_f32 cast_f64 df start =
    z_inverted ← z_inverted_of cast_f32 df start;
    rows ← mapM (cast_coordinates cast_f64) (last_moved df start);
    rows ← mapM (correct_z z_inverted) rows;
    mret (merge_sort name_le (label start <$> rows)).
Proof.
  intros Hin%coverage_check. unfold get_newscale_coordinates. by rewrite Hin.
Qed.

Lemma get_newscale_coordinates_uncovered df start :
  Some (date start) ∉ dates df →
  get_newscale_coordinates cast_f32 cast_f64 df start = Err NoCoverageError.
Proof.
  intros Hnot. unfold get_newscale_coordinates.
  destruct (_ || _) eqn:Hc; [done|]. by apply coverage_check in Hc.
Qed.

Lemma derives_label start r c c' flag :
  cast_coordinates cast_f64 r = Ok c → correct_z flag c = Ok c' →
  derives start r (label start c').
Proof.
  intros [Hdt Hname]%cast_coordinates_Ok [Hdt' Hname']%correct_z_Ok.
  unfold derives, label. simpl. by rewrite Hdt', Hname', Hdt, Hname.
Qed.

(** What a returned frame is made of. *)
Lemma get_newscale_coordinates_Ok df start out :
  get_newscale_coordinates cast_f32 cast_f64 df start = Ok out →
  Some (date start) ∈ dates df ∧
  ∃ rows, Forall2 (derives start) (last_moved df start) rows ∧
          out = merge_sort name_le rows.
Proof.
  intros Hout.
  destruct (decide (Some (date start) ∈ dates df)) as [Hcov|Hcov];
    [|by rewrite get_newscale_coordinates_uncovered in Hout].
  split; [done|]. rewrite get_newscale_coordinates_covered in Hout by done.
  destruct (z_inverted_of _ _ _) as [flag|]; [|discriminate].
  simpl in Hout.
  destruct (mapM _ (last_moved _ _)) as [rows|] eqn:Hrows; [|discriminate].
  simpl in Hout.
  destruct (mapM _ rows) as [rows'|] eqn:Hrows'; [|discriminate].
  injection Hout as <-. exists (label start <$> rows'). split; [|done].
  apply mapM_Ok in Hrows, Hrows'. apply Forall2_fmap_r.
  eapply Forall2_compose; [|done..]. intros r c c'. apply derives_label.
Qed.

(** Past the coverage check, the only exceptions are a failed cast
    and an unknown serial number. *)
Lemma get_newscale_coordinates_Err df start e :
  get_newscale_coordinates cast_f32 cast_f64 df start = Err e →
  match e with
  | NoCoverageError => Some (date start) ∉ dates df
  | MalformedLogError => Some (date start) ∈ dates df
  | UnknownDeviceError =>
      Some (date start) ∈ dates df ∧
      z_inverted_of cast_f32 df start = Ok true ∧
      ∃ r, r ∈ last_moved df start ∧
           strip_chars (Row.device_name r) ∉ dom SERIAL_NUM_TO_PROBE_LETTER
  end.
Proof.
  intros Herr.
  destruct (decide (Some (date start) ∈ dates df)) as [Hcov|Hcov].
  - rewrite get_newscale_coordinates_covered in Herr by done.
    destruct (z_inverted_of _ _ _) as [flag|e'] eqn:Hflag.
    + simpl in Herr.
      destruct (mapM _ (last_moved _ _)) as [rows|e'] eqn:Hrows.
      * simpl in Herr.
        destruct (mapM _ rows) as [rows'|e'] eqn:Hrows'; [discriminate|].
        injection Herr as <-.
        apply mapM_Err in Hrows' as (c & Hc & (-> & -> & Hunknown)%correct_z_Err).
        split_and!; [done..|]. apply mapM_Ok in Hrows.
        destruct (Forall2_elem_of_r _ _ _ _ Hrows Hc) as (r & Hr & Hrc).
        apply cast_coordinates_Ok in Hrc as [_ Hname].
        exists r. by rewrite <- Hname.
      * injection Herr as <-.
        apply mapM_Err in Hrows as (r & _ & ->%cast_coordinates_Err). done.
    + injection Herr as <-. by apply z_inverted_of_Err in Hflag as ->.
  - rewrite get_newscale_coordinates_uncovered in Herr by done.
    by injection Herr as <-.
Qed.

(** On a log without ties before the start time, and with the flag
    false, every runtime returns what the sample runtime returns. *)
Lemma get_newscale_coordinates_tie_free df start :
  tie_free (filter_select df start) →
  z_inverted_of cast_f32 df start = Ok false →
  get_newscale_coordinates cast_f32 cast_f64 df start =
  get_newscale_coordinates (runtime := sample_runtime)
    cast_f32 cast_f64 df start.
Proof.
  intros Hfree Hflag. unfold get_newscale_coordinates.
  by rewrite Hflag, (last_moved_tie_free df start Hfree).
Qed.
End resolve_facts.

Lemma string_leb_trans (a b c : string) :
  String.leb a b → String.leb b c → String.leb a c.
Proof.
  unfold String.leb. revert b c.
  induction a as [|x a IH]; intros [|y b] [|z c]; simpl; try done.
  unfold Ascii.compare.
  destruct (N.compare_spec (N_of_ascii x) (N_of_ascii y)) as [Hxy|Hxy|Hxy];
    destruct (N.compare_spec (N_of_ascii y) (N_of_ascii z)) as [Hyz|Hyz|Hyz];
    try done;
    destruct (N.compare_spec (N_of_ascii x) (N_of_ascii z)) as [Hxz|Hxz|Hxz];
    try done; try lia.
  apply IH.
Qed.

#[global] Instance name_le_trans : Transitive name_le.
Proof. intros a b c. apply string_leb_trans. Qed.


(** ** The date coverage check *)

(** C6: [get_newscale_coordinates] raises the no-coverage error exactly
    when the log is empty or no row's date is the date of the start
    time; on the empty log it raises it. *)
Theorem no_coverage_iff cast_f32 cast_f64 :
  (∀ df start,
     get_newscale_coordinates cast_f32 cast_f64 df start = Err NoCoverageError ↔
     df = [] ∨
     ¬ ∃ e dt, e ∈ df ∧ Event.last_movement_dt e = Some dt ∧
               date dt = date start) ∧
  (∀ start,
     get_newscale_coordinates cast_f32 cast_f64 [] start = Err NoCoverageError).
Proof.
  split; [|done]. intros df start. rewrite <- elem_of_dates. split.
  - intros Herr%get_newscale_coordinates_Err. by right.
  - intros [->|Hnot]; [done|].
    by apply get_newscale_coordinates_uncovered.
Qed.

(** ** The recent window *)

Lemma is_recent_spec start e :
  is_recent start e ↔
  ∃ dt, Event.last_movement_dt e = Some dt ∧ date start ≤ date dt.
Proof.
  unfold is_recent. destruct (Event.last_movement_dt e) as [dt|].
  - rewrite bool_decide_spec. split.
    + intros Hlt. exists dt. split; [done|lia].
    + intros (dt' & [= <-] & Hle). lia.
  - split; [done|]. by intros (dt & [=] & _).
Qed.

Lemma recent_z_values_Ok cast_f32 df start z_values :
  recent_z_values cast_f32 df start = Ok z_values ↔
  Forall2 (λ e v, cast_f32 (strip_chars (Event.z e)) = Some v)
    (recent_df df start) z_values.
Proof.
  unfold recent_z_values. rewrite mapM_Ok.
  split; intros Hz; eapply Forall2_impl; try exact Hz;
    intros e v; by rewrite str_to_float_Ok.
Qed.

(** C4 (amended): the rows whose z-values are fed to [is_z_inverted]
    are exactly the rows of the log, in log order, whose date is
    strictly later than the start date less one day, that is, on the
    start date or on any later date; rows with a null date are left
    out.  The flag of the file is [is_z_inverted] of their readings. *)
Theorem recent_window cast_f32 df start :
  (∀ e, e ∈ recent_df df start ↔
        e ∈ df ∧
        ∃ dt, Event.last_movement_dt e = Some dt ∧ date start ≤ date dt) ∧
  recent_df df start `sublist_of` df ∧
  (∀ z_values,
     Forall2 (λ e v, cast_f32 (strip_chars (Event.z e)) = Some v)
       (recent_df df start) z_values →
     z_inverted_of cast_f32 df start = Ok (is_z_inverted z_values)).
Proof.
  split_and!.
  - intros e. unfold recent_df. rewrite list_elem_of_filter, is_recent_spec.
    tauto.
  - apply sublist_filter.
  - intros z_values Hz. unfold z_inverted_of.
    by rewrite (proj2 (recent_z_values_Ok cast_f32 df start z_values) Hz).
Qed.

(** The coverage check leaves the recent window inhabited. *)
Lemma recent_df_covered df start :
  Some (date start) ∈ dates df → recent_df df start ≠ [].
Proof.
  intros (e & dt & Hin & Hdt & Hdate)%elem_of_dates Hnil.
  assert (He : e ∈ recent_df df start).
  { unfold recent_df. apply list_elem_of_filter. split; [|done].
    apply is_recent_spec. exists dt. split; [done|lia]. }
  rewrite Hnil in He. by apply elem_of_nil in He.
Qed.

(** C10 (amended): on no readings at all the counts of 0 and of
    either limit are 0 and [is_z_inverted] is false; inside
    [get_newscale_coordinates] the detector never gets that far on an
    empty recent window, since a log with no row in the window has no
    row on the start date and the call raises the no-coverage error. *)
Theorem is_z_inverted_empty cast_f32 cast_f64 :
  count_of (Counter (np_round_hundreds <$> [])) 0 = 0%nat ∧
  count_of (Counter (np_round_hundreds <$> [])) SHORT_TRAVEL_RANGE = 0%nat ∧
  count_of (Counter (np_round_hundreds <$> [])) LONG_TRAVEL_RANGE = 0%nat ∧
  is_z_inverted [] = false ∧
  ∀ df start,
    recent_df df start = [] →
    get_newscale_coordinates cast_f32 cast_f64 df start = Err NoCoverageError.
Proof.
  split_and!; [reflexivity..|]. intros df start Hnone.
  apply get_newscale_coordinates_uncovered. intros Hcov.
  by apply (recent_df_covered df start).
Qed.

(** ** The returned frame *)

Lemma returned_rows cast_f32 cast_f64 df start out :
  get_newscale_coordinates cast_f32 cast_f64 df start = Ok out →
  ∃ rows, rows ≡ₚ out ∧ Forall2 (derives start) (last_moved df start) rows.
Proof.
  intros (_ & rows & Hrows & ->)%get_newscale_coordinates_Ok.
  exists rows. split; [|done]. symmetry. apply merge_sort_Permutation.
Qed.

Lemma returned_row_origin cast_f32 cast_f64 df start out p :
  get_newscale_coordinates cast_f32 cast_f64 df start = Ok out → p ∈ out →
  ∃ r, r ∈ last_moved df start ∧ derives start r p.
Proof.
  intros (rows & Hperm & Hrows)%returned_rows Hp.
  rewrite <- Hperm in Hp. by eapply Forall2_elem_of_r.
Qed.


(** What lines 141 to 151 do as written: in a returned frame the rows
    are, one for one, the rows selected from the log: the rows moved
    strictly before the start time are grouped by serial number as
    logged, each group gives a row of greatest movement time, and the
    cap keeps at most six of them, all of them when at most six serial
    numbers qualify; the serial number is stripped only in the
    returned row.  A device none of whose rows moved before the start
    time has no row in the frame. *)
Theorem last_movement_of_each_logged_serial cast_f32 cast_f64 df start out :
  get_newscale_coordinates cast_f32 cast_f64 df start = Ok out →
  (∃ rows, rows ≡ₚ out ∧ Forall2 (derives start) (last_moved df start) rows) ∧
  NoDup (Row.device_name <$> last_moved df start) ∧
  (∀ r, r ∈ last_moved df start →
     Row.last_movement_dt r < start ∧
     (∃ e, e ∈ df ∧ select_before start e = Some r ∧
           Event.device_name e = Row.device_name r) ∧
     (∀ e dt, e ∈ df → Event.last_movement_dt e = Some dt → dt < start →
              Event.device_name e = Row.device_name r →
              dt ≤ Row.last_movement_dt r)) ∧
  ((size (devices_before df start) ≤ 6)%nat →
   ∀ e dt, e ∈ df → Event.last_movement_dt e = Some dt → dt < start →
           ∃ r, r ∈ last_moved df start ∧
                Row.device_name r = Event.device_name e) ∧
  (∀ d, (∀ e dt, e ∈ df → Event.last_movement_dt e = Some dt → dt < start →
                 strip_chars (Event.device_name e) ≠ d) →
        ∀ p, p ∈ out → Position.device_name p ≠ d).
Proof.
  intros Hout.
  assert (Hsel : ∀ r, r ∈ last_moved df start →
     Row.last_movement_dt r < start ∧
     (∃ e, e ∈ df ∧ select_before start e = Some r ∧
           Event.device_name e = Row.device_name r) ∧
     (∀ e dt, e ∈ df → Event.last_movement_dt e = Some dt → dt < start →
              Event.device_name e = Row.device_name r →
              dt ≤ Row.last_movement_dt r)).
  { intros r [Hin Hmax]%elem_of_last_moved.
    apply elem_of_filter_select in Hin as (e & He & Hdt & Hlt & Hr).
    split_and!; [done| |].
    - exists e. split_and!; [done| |by rewrite Hr].
      by apply select_before_Some.
    - intros e' dt' He' Hdt' Hlt' Hname'.
      destruct (filter_select_of_event df start e' dt') as (r' & Hr' & <- & Hn);
        [done..|].
      apply Hmax; [done|congruence]. }
  split_and!; [by eapply returned_rows|apply last_moved_NoDup|done| |].
  - intros Hsize e dt He Hdt Hlt.
    destruct (filter_select_of_event df start e dt) as (r' & Hr' & _ & <-);
      [done..|].
    by apply last_moved_complete.
  - intros d Habsent p Hp.
    destruct (returned_row_origin _ _ _ _ _ _ Hout Hp) as (r & Hr & _ & -> & _).
    destruct (Hsel r Hr) as (Hlt & (e & He & Hdt%select_before_Some & <-) & _).
    destruct Hdt as (Hdt & _). eauto.
Qed.

(** C5 (amended): the rows of a returned frame are in ascending order
    of probe name, every row's name being at most that of every later
    row; equal names may follow one another. *)
Theorem rows_sorted_by_probe_name cast_f32 cast_f64 df start out :
  get_newscale_coordinates cast_f32 cast_f64 df start = Ok out →
  StronglySorted name_le out.
Proof.
  intros (_ & rows & _ & ->)%get_newscale_coordinates_Ok.
  apply (StronglySorted_merge_sort name_le).
Qed.

(** C8: a returned frame has at most six rows, and at most as many
    rows as there are distinct serial numbers with a row of the log
    moved strictly before the start time. *)
Theorem row_count_bounds cast_f32 cast_f64 df start out :
  get_newscale_coordinates cast_f32 cast_f64 df start = Ok out →
  (∀ d, d ∈ devices_before df start ↔
        ∃ e dt, e ∈ df ∧ Event.last_movement_dt e = Some dt ∧ dt < start ∧
                Event.device_name e = d) ∧
  (length out ≤ 6)%nat ∧
  (length out ≤ size (devices_before df start))%nat.
Proof.
  intros (rows & Hperm & Hrows)%returned_rows.
  split; [apply elem_of_devices_before|].
  rewrite <- Hperm, <- (Forall2_length _ _ _ Hrows).
  split; [apply last_moved_length|apply last_moved_devices].
Qed.

(** C9: in a returned frame every row's relative time is the whole
    seconds of its movement time less the start time, the movement is
    strictly before the start time, and the relative time is at most
    zero. *)
Theorem elapsed_seconds_nonpositive cast_f32 cast_f64 df start out p :
  get_newscale_coordinates cast_f32 cast_f64 df start = Ok out → p ∈ out →
  Position.last_movement_time p =
    total_seconds (Position.last_movement_dt p - start) ∧
  Position.last_movement_dt p < start ∧
  Position.last_movement_time p ≤ 0.
Proof.
  intros Hout Hp.
  destruct (returned_row_origin _ _ _ _ _ _ Hout Hp)
    as (r & Hr & Hdt & _ & _ & Htime).
  apply elem_of_last_moved in Hr as [Hr _].
  apply elem_of_filter_select in Hr as (_ & _ & _ & Hlt & _).
  rewrite Htime, Hdt. split_and!; [done..|]. by apply total_seconds_before.
Qed.

End selected_rows.

(** ** The sample logs, run *)



Lemma last_movement_of_each_logged_serial_witness :
  ∃ out, resolve log_three_probes start_2023_10_23 = Ok out ∧
         Position.device_name <$> out = ["SN40911"; "SN40900"; "SN40912"] ∧
         NoDup (Row.device_name <$>
                  last_moved (runtime := sample_runtime)
                    log_three_probes start_2023_10_23).
Proof.
  destruct (resolve log_three_probes start_2023_10_23) as [out|e] eqn:Hout;
    [|vm_compute in Hout; discriminate].
  exists out. split_and!.
  - reflexivity.
  - vm_compute in Hout. injection Hout as <-. reflexivity.
  - exact (proj1 (proj2 (last_movement_of_each_logged_serial
             read_decimal read_decimal _ _ out Hout))).
Defined.

(** C2: the log has two rows of one manipulator, both moved before the
    start time, whose serial numbers differ only in a leading space.
    Grouped after trimming they are one group and only the later row
    would be returned; the function, on every runtime, groups them
    apart and returns both, under the same stripped serial number and
    the same probe name. *)
Lemma stray_whitespace_splits_group :
  strip_chars " SN40911" = strip_chars "SN40911" ∧
  clock 19653 13 58 1 < clock 19653 13 59 30 < start_2023_10_23 ∧
  ∀ runtime : Runtime,
    ∃ out, get_newscale_coordinates read_decimal read_decimal
             log_stray_whitespace start_2023_10_23 = Ok out ∧
           Position.device_name <$> out = ["SN40911"; "SN40911"] ∧
           Position.electrode_group_name <$> out = ["probeA"; "probeA"] ∧
           Position.last_movement_dt <$> out ≡ₚ
             [clock 19653 13 58 1; clock 19653 13 59 30].
Proof.
  split_and!; [run|run|run|]. intros runtime.
  rewrite get_newscale_coordinates_tie_free; [|holds|run].
  eexists. split_and!; [run|run|run|].
  vm_compute. apply Permutation_swap.
Qed.

(** Counted after stripping, the devices can be fewer than the rows. *)
Lemma stripped_devices_fewer_than_rows :
  ∃ out, resolve log_stray_whitespace start_2023_10_23 = Ok out ∧
         length out = 2%nat ∧
         size (devices_before log_stray_whitespace start_2023_10_23) = 2%nat ∧
         size (list_to_set (C := gset string)
                 (strip_chars <$>
                    elements (devices_before log_stray_whitespace
                                start_2023_10_23))) = 1%nat.
Proof. eexists. split_and!; run. Qed.

(** The row dated one day before the start date is outside the window
    and the row dated five days after it is inside; the flag follows
    the later row. *)
Lemma recent_window_boundaries :
  (movement (clock 19652 9 0 0) " SN40911" " 0.0") ∈ log_window ∧
  date (clock 19652 9 0 0) = date start_2023_10_23 - 1 ∧
  (movement (clock 19652 9 0 0) " SN40911" " 0.0"
     ∉ recent_df log_window start_2023_10_23) ∧
  date start_2023_10_23 + 5 = date (clock 19658 10 0 0) ∧
  (movement (clock 19658 10 0 0) " SN40911" " 15000.0")
    ∈ recent_df log_window start_2023_10_23 ∧
  z_inverted_of read_decimal log_window start_2023_10_23 = Ok true ∧
  is_z_inverted [0; 3920]%Q = false.
Proof.
  split_and!; [holds|run|holds|run|holds|run|run].
Qed.

Lemma rows_sorted_by_probe_name_witness :
  ∃ out, resolve log_three_probes start_2023_10_23 = Ok out ∧
         Position.electrode_group_name <$> out = ["probeA"; "probeB"; "probeC"] ∧
         StronglySorted name_le out.
Proof.
  destruct (resolve log_three_probes start_2023_10_23) as [out|e] eqn:Hout;
    [|vm_compute in Hout; discriminate].
  exists out. split_and!.
  - reflexivity.
  - vm_compute in Hout. injection Hout as <-. reflexivity.
  - exact (rows_sorted_by_probe_name read_decimal read_decimal _ _ out Hout).
Defined.

(** Two serial numbers of the registry share the letter D. *)
Lemma replaced_manipulator_shares_name :
  ∃ out, resolve log_replaced_manipulator start_2023_10_23 = Ok out ∧
         Position.device_name <$> out ≡ₚ ["SN32149"; "SN24272"] ∧
         Position.electrode_group_name <$> out = ["probeD"; "probeD"] ∧
         ¬ NoDup (Position.electrode_group_name <$> out).
Proof.
  eexists. split_and!; [run| |run|].
  { vm_compute. apply Permutation_swap. }
  intros Hdup. apply NoDup_cons in Hdup as [Hnotin _].
  apply Hnotin. left.
Qed.

Lemma row_count_bounds_witness :
  ∃ out, resolve log_three_probes start_2023_10_23 = Ok out ∧
         (length out ≤ 6)%nat ∧
         (length out ≤ size (devices_before log_three_probes start_2023_10_23))%nat.
Proof.
  destruct (resolve log_three_probes start_2023_10_23) as [out|e] eqn:Hout;
    [|vm_compute in Hout; discriminate].
  exists out. split; [reflexivity|].
  exact (proj2 (row_count_bounds read_decimal read_decimal _ _ out Hout)).
Defined.

Lemma elapsed_seconds_nonpositive_witness :
  ∃ out, resolve log_three_probes start_2023_10_23 = Ok out ∧
         Position.last_movement_time <$> out = [-784; -533; -695] ∧
         Forall (λ p, Position.last_movement_time p ≤ 0) out.
Proof.
  destruct (resolve log_three_probes start_2023_10_23) as [out|e] eqn:Hout;
    [|vm_compute in Hout; discriminate].
  exists out. split_and!.
  - reflexivity.
  - vm_compute in Hout. injection Hout as <-. reflexivity.
  - apply Forall_forall. intros p Hp.
    exact (proj2 (proj2 (elapsed_seconds_nonpositive
             read_decimal read_decimal _ _ out p Hout Hp))).
Defined.

Lemma is_z_inverted_empty_witness :
  recent_df [movement (clock 19652 9 0 0) " SN40911" " 15000.0"]
    start_2023_10_23 = [] ∧
  resolve [movement (clock 19652 9 0 0) " SN40911" " 15000.0"]
    start_2023_10_23 = Err NoCoverageError.
Proof.
  split; [run|].
  destruct (is_z_inverted_empty (runtime := sample_runtime)
              read_decimal read_decimal) as (_ & _ & _ & _ & Hraises).
  apply Hraises. run.
Defined.

(** A log whose only row is dated the day before the start date has no
    row in the recent window; the call gives no flag: on every runtime
    it raises the no-coverage error. *)
Lemma empty_window_raises :
  recent_df [movement (clock 19652 9 0 0) " SN40911" " 15000.0"]
    start_2023_10_23 = [] ∧
  ∀ runtime : Runtime,
    get_newscale_coordinates read_decimal read_decimal
      [movement (clock 19652 9 0 0) " SN40911" " 15000.0"] start_2023_10_23
    = Err NoCoverageError.
Proof.
  split; [run|]. intros runtime.
  apply get_newscale_coordinates_uncovered. vm_compute.
  intros Hin. apply list_elem_of_singleton in Hin. discriminate.
Qed.

(** ** More on the inversion detector *)

Lemma occurrences_cons k a keys :
  occurrences k (a :: keys) =
  if decide (a = k) then S (occurrences k keys) else occurrences k keys.
Proof. unfold occurrences. rewrite filter_cons. by case_decide. Qed.

Lemma occurrences_Permutation k keys keys' :
  keys ≡ₚ keys' → occurrences k keys = occurrences k keys'.
Proof. intros Hperm. unfold occurrences. by rewrite Hperm. Qed.

Lemma is_z_inverted_occurrences z_values :
  is_z_inverted z_values =
  let rounded := np_round_hundreds <$> z_values in
  (occurrences 0 rounded <?
   occurrences (if negb (occurrences 15000 rounded =? 0)%nat
                then 15000 else 6000) rounded)%nat.
Proof. unfold is_z_inverted. by rewrite !count_of_Counter. Qed.

(** X1: [is_z_inverted] depends on which readings there are, not on
    their order. *)
Theorem is_z_inverted_Permutation z_values z_values' :
  z_values ≡ₚ z_values' → is_z_inverted z_values = is_z_inverted z_values'.
Proof.
  intros Hperm. rewrite !is_z_inverted_occurrences. cbv zeta.
  assert (Hocc : ∀ k, occurrences k (np_round_hundreds <$> z_values) =
                      occurrences k (np_round_hundreds <$> z_values')).
  { intros k. apply occurrences_Permutation. by rewrite Hperm. }
  by rewrite !Hocc.
Qed.

Lemma is_z_inverted_Permutation_witness :
  [15000; 3000; 0; 15000]%Q ≡ₚ [0; 15000; 15000; 3000]%Q ∧
  is_z_inverted [15000; 3000; 0; 15000]%Q =
  is_z_inverted [0; 15000; 15000; 3000]%Q.
Proof.
  assert (Hperm : [15000; 3000; 0; 15000]%Q ≡ₚ [0; 15000; 15000; 3000]%Q).
  { apply (Permutation_trans (l' := [0; 15000; 3000; 15000]%Q)).
    - apply (Permutation_trans (l' := [15000; 0; 3000; 15000]%Q)).
      + apply perm_skip, perm_swap.
      + apply perm_swap.
    - apply perm_skip, perm_skip, perm_swap. }
  split; [exact Hperm|]. exact (is_z_inverted_Permutation _ _ Hperm).
Defined.

(** X2: a reading that rounds to neither 0, nor 15000, nor the limit
    in use for the other readings (15000 when one of them rounds to
    15000, 6000 otherwise) does not change the answer. *)
Theorem is_z_inverted_ignores_mid_range z z_values :
  np_round_hundreds z ≠ 0 →
  np_round_hundreds z ≠ 15000 →
  np_round_hundreds z ≠
    (if decide (15000 ∈ np_round_hundreds <$> z_values) then 15000 else 6000) →
  is_z_inverted (z :: z_values) = is_z_inverted z_values.
Proof.
  intros H0 Hlong Hlimit. rewrite !is_z_inverted_occurrences. cbv zeta.
  rewrite fmap_cons.
  rewrite !(occurrences_cons _ (np_round_hundreds z)).
  rewrite (decide_False (P := np_round_hundreds z = 15000)) by done.
  rewrite (decide_False (P := np_round_hundreds z = 0)) by done.
  pose proof (occurrences_pos 15000 (np_round_hundreds <$> z_values)) as Hpos.
  destruct (occurrences 15000 (np_round_hundreds <$> z_values) =? 0)%nat eqn:E;
    cbn [negb].
  - apply Nat.eqb_eq in E. rewrite decide_False in Hlimit.
    + by rewrite (decide_False (P := np_round_hundreds z = 6000)).
    + intros Hin%Hpos. lia.
  - by rewrite (decide_False (P := np_round_hundreds z = 15000)).
Qed.

Lemma is_z_inverted_ignores_mid_range_witness :
  is_z_inverted [6020; 15000; 0; 15000]%Q = is_z_inverted [15000; 0; 15000]%Q.
Proof.
  apply (is_z_inverted_ignores_mid_range 6020 [15000; 0; 15000]%Q);
    vm_compute; discriminate.
Defined.

(** X3: one more reading that rounds to 0 never turns an answer of
    false into true. *)
Theorem is_z_inverted_zero_reading z z_values :
  np_round_hundreds z = 0 →
  is_z_inverted z_values = false →
  is_z_inverted (z :: z_values) = false.
Proof.
  intros Hz. rewrite !is_z_inverted_occurrences. cbv zeta. rewrite fmap_cons.
  rewrite !(occurrences_cons _ (np_round_hundreds z)), Hz.
  rewrite (decide_False (P := 0 = 15000)) by done.
  rewrite (decide_True (P := 0 = 0)) by done.
  destruct (occurrences 15000 (np_round_hundreds <$> z_values) =? 0)%nat;
    cbn [negb]; rewrite !Nat.ltb_ge.
  - rewrite (decide_False (P := 0 = 6000)) by done. lia.
  - rewrite (decide_False (P := 0 = 15000)) by done. lia.
Qed.

Lemma is_z_inverted_zero_reading_witness :
  is_z_inverted [49; 6000; 0]%Q = false.
Proof.
  apply (is_z_inverted_zero_reading 49 [6000; 0]%Q); run.
Defined.

(** ** More on the registry *)

Lemma short_travel_known :
  SHORT_TRAVEL_SERIAL_NUMBERS ⊆ dom SERIAL_NUM_TO_PROBE_LETTER.
Proof.
  intros s Hs. unfold SHORT_TRAVEL_SERIAL_NUMBERS in Hs.
  rewrite elem_of_list_to_set in Hs.
  repeat (apply elem_of_cons in Hs as [->|Hs];
          [apply elem_of_dom; vm_compute; eauto|]).
  by apply elem_of_nil in Hs.
Qed.

Lemma registry_letters s letter :
  SERIAL_NUM_TO_PROBE_LETTER !! s = Some letter → letter ∈ PROBE_LETTERS.
Proof.
  apply (map_Forall_lookup_1 (λ _ v, v ∈ PROBE_LETTERS)
           SERIAL_NUM_TO_PROBE_LETTER s letter).
  holds.
Qed.

(** X4: every short-travel serial number is a key of the registry, so
    [get_z_travel] answers 6000 exactly on the short-travel set, 15000
    exactly on the other keys, and nothing else. *)
Theorem get_z_travel_by_set s :
  (get_z_travel s = Ok 6000 ↔ s ∈ SHORT_TRAVEL_SERIAL_NUMBERS) ∧
  (get_z_travel s = Ok 15000 ↔
     s ∈ dom SERIAL_NUM_TO_PROBE_LETTER ∧ s ∉ SHORT_TRAVEL_SERIAL_NUMBERS) ∧
  (∀ travel, get_z_travel s = Ok travel → travel = 6000 ∨ travel = 15000).
Proof.
  pose proof (short_travel_known s) as Hknown.
  unfold get_z_travel, SHORT_TRAVEL_RANGE, LONG_TRAVEL_RANGE.
  destruct (decide (s ∈ dom SERIAL_NUM_TO_PROBE_LETTER)) as [Hs|Hs];
    [destruct (decide (s ∈ SHORT_TRAVEL_SERIAL_NUMBERS)) as [Hshort|Hshort]|].
  - split_and!.
    + by split.
    + split; [discriminate|]. by intros [_ ?].
    + intros travel [= <-]. by left.
  - split_and!.
    + split; [discriminate|done].
    + by split.
    + intros travel [= <-]. by right.
  - split_and!.
    + split; [discriminate|]. intros Hshort. by apply Hknown in Hshort.
    + split; [discriminate|]. by intros [? _].
    + discriminate.
Qed.

(** ** Outcomes of the pipeline *)

Section returned_frames.
Context {runtime : Runtime}.

Lemma mapM_is_Ok {A B} (f : A → result B) l :
  (∃ k, mapM f l = Ok k) ↔ ∀ a, a ∈ l → ∃ b, f a = Ok b.
Proof.
  split; [|apply mapM_never_raises].
  intros [k Hk%mapM_Ok] a Ha.
  destruct (Forall2_elem_of_l _ _ _ _ Hk Ha) as (b & _ & Hb). eauto.
Qed.

Lemma mapM_Ok_or_Err {A B} (f : A → result B) l :
  (∃ k, mapM f l = Ok k) ∨ (∃ a e, a ∈ l ∧ f a = Err e ∧ mapM f l = Err e).
Proof.
  destruct (mapM f l) as [k|e] eqn:Hl; [by eauto|].
  right. apply mapM_Err in Hl as (a & Ha & Hfa). eauto.
Qed.

Lemma cast_coordinates_is_Ok cast_f64 r :
  (∃ c, cast_coordinates cast_f64 r = Ok c) ↔ coordinates_cast cast_f64 r.
Proof.
  split.
  - intros [c Hc]. unfold cast_coordinates, str_to_float in Hc.
    unfold coordinates_cast.
    destruct (cast_f64 (strip_chars (Row.x r))); [|discriminate].
    destruct (cast_f64 (strip_chars (Row.y r))); [|discriminate].
    destruct (cast_f64 (strip_chars (Row.z r))); [|discriminate].
    eauto.
  - intros (Hx & Hy & Hz). by apply cast_coordinates_parses.
Qed.

Lemma correct_z_is_Ok flag c :
  (∃ c', correct_z flag c = Ok c') ↔
  (flag = true → Coords.device_name c ∈ dom SERIAL_NUM_TO_PROBE_LETTER).
Proof.
  split.
  - intros [c' Hc'] ->.
    destruct (decide (Coords.device_name c ∈ dom SERIAL_NUM_TO_PROBE_LETTER))
      as [|Hunknown]; [done|].
    by rewrite correct_z_unknown in Hc'.
  - intros Hknown. destruct flag; [|by exists c].
    unfold correct_z, get_z_travel. rewrite decide_True by auto.
    case_decide; eauto.
Qed.


Section outcomes.
Context (cast_f32 cast_f64 : string → option Q).

Lemma z_inverted_of_is_Ok df start :
  (∃ flag, z_inverted_of cast_f32 df start = Ok flag) ↔
  ∀ e, e ∈ recent_df df start →
       is_Some (cast_f32 (strip_chars (Event.z e))).
Proof.
  unfold z_inverted_of, recent_z_values. split.
  - intros [flag Hflag] e He.
    destruct (mapM _ _) as [zs|] eqn:Hzs; [|discriminate].
    destruct (proj1 (mapM_is_Ok _ _) (ex_intro _ zs Hzs) e He) as [v Hv].
    apply str_to_float_Ok in Hv. eauto.
  - intros Hall.
    destruct (mapM_never_raises
                (λ e, str_to_float cast_f32 (Event.z e)) (recent_df df start))
      as [zs Hzs].
    + intros e [v Hv]%Hall. exists v. by apply str_to_float_Ok.
    + rewrite Hzs. eauto.
Qed.

Lemma z_inverted_of_is_Err df start e :
  z_inverted_of cast_f32 df start = Err e →
  e = MalformedLogError ∧
  ∃ ev, ev ∈ recent_df df start ∧ cast_f32 (strip_chars (Event.z ev)) = None.
Proof.
  intros Herr. split; [by eapply z_inverted_of_Err|].
  unfold z_inverted_of, recent_z_values in Herr.
  destruct (mapM _ _) as [|e'] eqn:Hzs; [discriminate|].
  apply mapM_Err in Hzs as (ev & Hev & Hcast). exists ev. split; [done|].
  unfold str_to_float in Hcast. by destruct (cast_f32 _).
Qed.

(** The frame that comes back, or the exception, stage by stage. *)
Lemma pipeline_outcome df start :
  Some (date start) ∈ dates df →
  match z_inverted_of cast_f32 df start with
  | Err _ =>
      get_newscale_coordinates cast_f32 cast_f64 df start = Err MalformedLogError
  | Ok flag =>
      match mapM (cast_coordinates cast_f64) (last_moved df start) with
      | Err _ =>
          get_newscale_coordinates cast_f32 cast_f64 df start
          = Err MalformedLogError
      | Ok rows =>
          match mapM (correct_z flag) rows with
          | Err _ =>
              get_newscale_coordinates cast_f32 cast_f64 df start
              = Err UnknownDeviceError
          | Ok rows' =>
              get_newscale_coordinates cast_f32 cast_f64 df start
              = Ok (merge_sort name_le (label start <$> rows'))
          end
      end
  end.
Proof.
  intros Hcov. rewrite get_newscale_coordinates_covered by done.
  destruct (z_inverted_of _ _ _) as [flag|e] eqn:Hflag;
    [|by apply z_inverted_of_Err in Hflag as ->].
  simpl.
  destruct (mapM _ (last_moved _ _)) as [rows|e] eqn:Hrows; simpl.
  - destruct (mapM _ rows) as [rows'|e] eqn:Hrows'; simpl; [done|].
    by apply mapM_Err in Hrows' as (c & _ & [-> _]%correct_z_Err).
  - by apply mapM_Err in Hrows as (r & _ & ->%cast_coordinates_Err).
Qed.

Lemma cast_all_is_Ok rows :
  (∃ cs, mapM (cast_coordinates cast_f64) rows = Ok cs) ↔
  ∀ r, r ∈ rows → coordinates_cast cast_f64 r.
Proof.
  rewrite mapM_is_Ok. by setoid_rewrite cast_coordinates_is_Ok.
Qed.

Lemma correct_all_is_Ok flag rows cs :
  mapM (cast_coordinates cast_f64) rows = Ok cs →
  (∃ cs', mapM (correct_z flag) cs = Ok cs') ↔
  (flag = true →
   ∀ r, r ∈ rows →
        strip_chars (Row.device_name r) ∈ dom SERIAL_NUM_TO_PROBE_LETTER).
Proof.
  intros Hcs%mapM_Ok. rewrite mapM_is_Ok. setoid_rewrite correct_z_is_Ok.
  split.
  - intros Hknown Hflag r Hr.
    destruct (Forall2_elem_of_l _ _ _ _ Hcs Hr)
      as (c & Hc & [_ <-]%cast_coordinates_Ok).
    by apply Hknown.
  - intros Hknown c Hc Hflag.
    destruct (Forall2_elem_of_r _ _ _ _ Hcs Hc)
      as (r & Hr & [_ ->]%cast_coordinates_Ok).
    by apply Hknown.
Qed.
End outcomes.

(** X5: in a returned frame a row whose device is a key of the
    registry is named "probe" followed by the letter of that device,
    one of A to F; a row whose device is no key is named by the device
    itself. *)
Theorem electrode_group_names cast_f32 cast_f64 df start out p :
  get_newscale_coordinates cast_f32 cast_f64 df start = Ok out → p ∈ out →
  match SERIAL_NUM_TO_PROBE_LETTER !! Position.device_name p with
  | Some letter =>
      letter ∈ PROBE_LETTERS ∧
      Position.electrode_group_name p = "probe" +:+ letter
  | None => Position.electrode_group_name p = Position.device_name p
  end.
Proof.
  intros Hout Hp.
  destruct (returned_row_origin _ _ _ _ _ _ Hout Hp)
    as (r & _ & _ & Hname & Hlabel & _).
  rewrite Hlabel, Hname. unfold replace, probe_names. rewrite lookup_fmap.
  destruct (SERIAL_NUM_TO_PROBE_LETTER !! _) as [letter|] eqn:Hletter; simpl;
    [|done].
  split; [by eapply registry_letters|done].
Qed.


(** X7: the call fails on a malformed number exactly when the log
    covers the start date and either the [z] text of some row of the
    recent window does not cast, or some coordinate text of a selected
    row does not cast. *)
Theorem malformed_log_iff cast_f32 cast_f64 df start :
  get_newscale_coordinates cast_f32 cast_f64 df start = Err MalformedLogError ↔
  Some (date start) ∈ dates df ∧
  ((∃ e, e ∈ recent_df df start ∧
         cast_f32 (strip_chars (Event.z e)) = None) ∨
   (∃ r, r ∈ last_moved df start ∧ ¬ coordinates_cast cast_f64 r)).
Proof.
  split.
  - intros Herr.
    pose proof (get_newscale_coordinates_Err _ _ _ _ _ Herr) as Hcov.
    simpl in Hcov. split; [done|].
    pose proof (pipeline_outcome cast_f32 cast_f64 df start Hcov) as Hres.
    destruct (z_inverted_of _ _ _) as [flag|e] eqn:Hflag.
    + destruct (mapM _ (last_moved _ _)) as [cs|e] eqn:Hcs.
      * destruct (mapM _ cs); congruence.
      * right. apply mapM_Err in Hcs as (r & Hr & Hbad).
        exists r. split; [done|].
        intros [c Hc]%cast_coordinates_is_Ok. congruence.
    + left. by apply z_inverted_of_is_Err in Hflag as [_ ?].
  - intros [Hcov Hbad].
    pose proof (pipeline_outcome cast_f32 cast_f64 df start Hcov) as Hres.
    destruct (z_inverted_of _ _ _) as [flag|e] eqn:Hflag; [|done].
    destruct Hbad as [(e & He & Hnone)|(r & Hr & Hbad)].
    + destruct (proj1 (z_inverted_of_is_Ok cast_f32 df start)
                  (ex_intro _ flag Hflag) e He) as [v Hv].
      congruence.
    + destruct (mapM _ (last_moved _ _)) as [cs|e] eqn:Hcs; [|done].
      destruct Hbad.
      by apply (proj1 (cast_all_is_Ok cast_f64 _) (ex_intro _ cs Hcs)).
Qed.

(** X8: the call fails on an unknown serial number exactly when the
    log covers the start date, every needed text casts, the file-wide
    flag is true and some selected serial number, stripped, is no key
    of the registry. *)
Theorem unknown_device_iff cast_f32 cast_f64 df start :
  get_newscale_coordinates cast_f32 cast_f64 df start = Err UnknownDeviceError ↔
  Some (date start) ∈ dates df ∧
  z_inverted_of cast_f32 df start = Ok true ∧
  (∀ r, r ∈ last_moved df start → coordinates_cast cast_f64 r) ∧
  ∃ r, r ∈ last_moved df start ∧
       strip_chars (Row.device_name r) ∉ dom SERIAL_NUM_TO_PROBE_LETTER.
Proof.
  split.
  - intros Herr.
    pose proof (get_newscale_coordinates_Err _ _ _ _ _ Herr)
      as (Hcov & Hflag & Hunknown).
    split_and!; [done..| |done].
    pose proof (pipeline_outcome cast_f32 cast_f64 df start Hcov) as Hres.
    rewrite Hflag in Hres.
    destruct (mapM _ (last_moved _ _)) as [cs|e] eqn:Hcs; [|congruence].
    by apply (proj1 (cast_all_is_Ok cast_f64 _) (ex_intro _ cs Hcs)).
  - intros (Hcov & Hflag & Hcast & r & Hr & Hunknown).
    pose proof (pipeline_outcome cast_f32 cast_f64 df start Hcov) as Hres.
    rewrite Hflag in Hres.
    destruct (proj2 (cast_all_is_Ok cast_f64 _) Hcast) as [cs Hcs].
    rewrite Hcs in Hres.
    destruct (mapM _ cs) as [cs'|e] eqn:Hcs'; [|done].
    destruct Hunknown.
    by apply (proj1 (correct_all_is_Ok cast_f64 true _ cs Hcs)
                (ex_intro _ cs' Hcs')).
Qed.

(** X9: the call returns a frame exactly when the log covers the
    start date, the [z] text of every row of the recent window casts,
    the coordinate texts of every selected row cast and, if the
    file-wide flag is true, every selected serial number, stripped, is
    a key of the registry. *)
Theorem returns_iff cast_f32 cast_f64 df start :
  (∃ out, get_newscale_coordinates cast_f32 cast_f64 df start = Ok out) ↔
  Some (date start) ∈ dates df ∧
  (∀ e, e ∈ recent_df df start →
        is_Some (cast_f32 (strip_chars (Event.z e)))) ∧
  (∀ r, r ∈ last_moved df start → coordinates_cast cast_f64 r) ∧
  (z_inverted_of cast_f32 df start = Ok true →
   ∀ r, r ∈ last_moved df start →
        strip_chars (Row.device_name r) ∈ dom SERIAL_NUM_TO_PROBE_LETTER).
Proof.
  split.
  - intros [out Hout].
    pose proof (get_newscale_coordinates_Ok _ _ _ _ _ Hout) as [Hcov _].
    pose proof (pipeline_outcome cast_f32 cast_f64 df start Hcov) as Hres.
    destruct (z_inverted_of _ _ _) as [flag|] eqn:Hflag; [|congruence].
    destruct (mapM _ (last_moved _ _)) as [cs|] eqn:Hcs; [|congruence].
    destruct (mapM _ cs) as [cs'|] eqn:Hcs'; [|congruence].
    split_and!; [done| | |].
    + apply z_inverted_of_is_Ok. eauto.
    + apply cast_all_is_Ok. eauto.
    + intros [= ->].
      by apply (proj1 (correct_all_is_Ok cast_f64 true _ cs Hcs)
                  (ex_intro _ cs' Hcs')).
  - intros (Hcov & Hz & Hcast & Hknown).
    pose proof (pipeline_outcome cast_f32 cast_f64 df start Hcov) as Hres.
    destruct (proj2 (z_inverted_of_is_Ok cast_f32 df start) Hz) as [flag Hflag].
    rewrite Hflag in Hres, Hknown.
    destruct (proj2 (cast_all_is_Ok cast_f64 _) Hcast) as [cs Hcs].
    rewrite Hcs in Hres.
    destruct (proj2 (correct_all_is_Ok cast_f64 flag _ cs Hcs)) as [cs' Hcs'].
    { intros ->. by apply Hknown. }
    rewrite Hcs' in Hres. eauto.
Qed.

(** ** The cap and the number of rows *)

Lemma last_moved_length_exact df start :
  length (last_moved df start) = (6 `min` size (devices_before df start))%nat.
Proof.
  unfold last_moved, top_k, devices_before.
  rewrite length_take, (sort_descending_Permutation _).
  by rewrite group_by_agg_last_length.
Qed.

Lemma group_row_of_event df start e dt :
  e ∈ df → Event.last_movement_dt e = Some dt → dt < start →
  ∃ r, r ∈ group_by_agg_last (filter_select df start) ∧
       Row.device_name r = Event.device_name e ∧
       dt ≤ Row.last_movement_dt r.
Proof.
  intros He Hdt Hlt.
  destruct (filter_select_of_event df start e dt) as (r0 & Hr0 & <- & Hname0);
    [done..|].
  assert (Hname : Row.device_name r0 ∈
            Row.device_name <$> group_by_agg_last (filter_select df start)).
  { rewrite group_by_agg_last_names, elem_of_remove_dups.
    by apply list_elem_of_fmap_2. }
  apply list_elem_of_fmap in Hname as (r & Hname & Hr).
  exists r. split_and!; [done|congruence|].
  apply elem_of_group_by_agg_last in Hr as [_ Hmax]. by apply Hmax.
Qed.

(** X10: a returned frame has exactly as many rows as there are
    distinct logged serial numbers with a movement strictly before the
    start time, or six when there are more. *)
Theorem row_count_exact cast_f32 cast_f64 df start out :
  get_newscale_coordinates cast_f32 cast_f64 df start = Ok out →
  length out = (6 `min` size (devices_before df start))%nat.
Proof.
  intros (rows & Hperm & Hrows)%returned_rows.
  rewrite <- Hperm, <- (Forall2_length _ _ _ Hrows).
  apply last_moved_length_exact.
Qed.

(** X11: a device left out of a returned frame by the cap moved no
    later than any device in the frame: if no returned row bears the
    stripped serial number of a row moved before the start time, that
    movement is no later than the movement of every returned row. *)
Theorem cap_keeps_latest cast_f32 cast_f64 df start out e dt p :
  get_newscale_coordinates cast_f32 cast_f64 df start = Ok out →
  e ∈ df → Event.last_movement_dt e = Some dt → dt < start →
  (∀ p', p' ∈ out →
         Position.device_name p' ≠ strip_chars (Event.device_name e)) →
  p ∈ out →
  dt ≤ Position.last_movement_dt p.
Proof.
  intros Hout He Hdt Hlt Habsent Hp.
  destruct (group_row_of_event df start e dt) as (r' & Hr' & Hname' & Hle);
    [done..|].
  destruct (returned_row_origin _ _ _ _ _ _ Hout Hp) as (r & Hr & Hdtp & _).
  rewrite Hdtp. transitivity (Row.last_movement_dt r'); [done|].
  apply (top_k_latest 6 (group_by_agg_last (filter_select df start)));
    [done..|].
  intros Hkept.
  destruct (returned_rows _ _ _ _ _ Hout) as (rows & Hperm & Hrows).
  destruct (Forall2_elem_of_l _ _ _ _ Hrows Hkept) as (p' & Hp' & _ & Hn & _).
  rewrite Hperm in Hp'. apply (Habsent p' Hp'). by rewrite Hn, Hname'.
Qed.

(** X12: a returned frame is empty exactly when no row of the log
    moved strictly before the start time. *)
Theorem empty_frame_iff cast_f32 cast_f64 df start out :
  get_newscale_coordinates cast_f32 cast_f64 df start = Ok out →
  out = [] ↔
  ∀ e dt, e ∈ df → Event.last_movement_dt e = Some dt → start ≤ dt.
Proof.
  intros (rows & Hperm & Hrows)%returned_rows.
  assert (Hlen : length out =
                 (6 `min` size (devices_before df start))%nat).
  { rewrite <- Hperm, <- (Forall2_length _ _ _ Hrows).
    apply last_moved_length_exact. }
  split.
  - intros -> e dt He Hdt.
    destruct (decide (dt < start)) as [Hlt|]; [|lia].
    assert (Hdev : Event.device_name e ∈ devices_before df start).
    { apply elem_of_devices_before. by exists e, dt. }
    assert (size (devices_before df start) ≠ 0%nat).
    { intros Hzero%size_empty_iff. rewrite Hzero in Hdev.
      by apply not_elem_of_empty in Hdev. }
    cbn [length] in Hlen. lia.
  - intros Hnone. apply length_zero_iff_nil. rewrite Hlen.
    assert (Hempty : devices_before df start ≡ ∅).
    { apply elem_of_equiv_empty. intros d.
      intros (e & dt & He & Hdt & Hlt & _)%elem_of_devices_before.
      specialize (Hnone e dt He Hdt). lia. }
    apply size_empty_iff in Hempty. lia.
Qed.

(** ** What the result does not depend on *)

Lemma same_but_virtual_select start e e' :
  same_but_virtual e e' → select_before start e = select_before start e'.
Proof.
  intros (Hdt & Hname & Hx & Hy & Hz). unfold select_before.
  by rewrite Hdt, Hname, Hx, Hy, Hz.
Qed.

Lemma same_but_virtual_recent start e e' :
  same_but_virtual e e' → is_recent start e = is_recent start e'.
Proof. intros (Hdt & _). unfold is_recent. by rewrite Hdt. Qed.

Lemma same_but_virtual_frames cast_f32 start df df' :
  Forall2 same_but_virtual df df' →
  is_empty df = is_empty df' ∧
  dates df = dates df' ∧
  filter_select df start = filter_select df' start ∧
  recent_z_values cast_f32 df start = recent_z_values cast_f32 df' start.
Proof.
  unfold recent_z_values, recent_df, filter_select, dates.
  induction 1 as [|e e' df df' He _ (_ & IHdates & IHsel & IHz)]; [done|].
  split_and!; [done| | |].
  - rewrite !fmap_cons, IHdates. by destruct He as (-> & _).
  - simpl. rewrite (same_but_virtual_select start e e' He).
    destruct (select_before start e'); [f_equal|]; exact IHsel.
  - rewrite !filter_cons, <- (same_but_virtual_recent start e e' He).
    case_decide; [|done].
    rewrite !mapM_cons, IHz. by destruct He as (_ & _ & _ & _ & ->).
Qed.

(** X13: the three virtual columns play no part: two logs that agree
    row by row on the timestamp, the serial number and [x], [y], [z]
    give the same frame or the same exception. *)
Theorem virtual_columns_ignored cast_f32 cast_f64 df df' start :
  Forall2 same_but_virtual df df' →
  get_newscale_coordinates cast_f32 cast_f64 df start =
  get_newscale_coordinates cast_f32 cast_f64 df' start.
Proof.
  intros Hsame.
  destruct (same_but_virtual_frames cast_f32 start df df' Hsame)
    as (Hempty & Hdates & Hsel & Hz).
  unfold get_newscale_coordinates, z_inverted_of, last_moved.
  by rewrite Hempty, Hdates, Hsel, Hz.
Qed.

(** X14: whenever a frame is returned, the file-wide flag was computed
    from at least one reading. *)
Theorem flag_sample_nonempty cast_f32 cast_f64 df start out :
  get_newscale_coordinates cast_f32 cast_f64 df start = Ok out →
  ∃ z_values,
    z_values ≠ [] ∧
    recent_z_values cast_f32 df start = Ok z_values ∧
    z_inverted_of cast_f32 df start = Ok (is_z_inverted z_values).
Proof.
  intros Hout.
  pose proof (get_newscale_coordinates_Ok _ _ _ _ _ Hout) as [Hcov _].
  pose proof (pipeline_outcome cast_f32 cast_f64 df start Hcov) as Hres.
  unfold z_inverted_of in *.
  destruct (recent_z_values cast_f32 df start) as [zs|] eqn:Hzs;
    [|simpl in Hres; congruence].
  exists zs. split_and!; [|done..].
  intros ->. apply recent_z_values_Ok, Forall2_nil_inv_r in Hzs.
  by apply (recent_df_covered df start).
Qed.

Lemma white_space_prefix_length s rest :
  white_space_prefix s = Some rest → (String.length rest < String.length s)%nat.
Proof.
  destruct s as [|c1 [|c2 [|c3 s]]]; simpl; repeat case_match;
    intros [= <-]; simpl; lia.
Qed.

Lemma strip_start_steps_stripped n s :
  (String.length s ≤ n)%nat → white_space_prefix (strip_start_steps n s) = None.
Proof.
  revert s. induction n as [|n IH]; intros s Hlen; simpl.
  - by destruct s; [|simpl in Hlen; lia].
  - destruct (white_space_prefix s) as [rest|] eqn:Hs; [|done].
    apply IH. apply white_space_prefix_length in Hs. lia.
Qed.

Lemma strip_chars_start_stripped s :
  white_space_prefix (strip_chars_start s) = None.
Proof. by apply strip_start_steps_stripped. Qed.

Lemma strip_chars_start_fixed s :
  white_space_prefix s = None → strip_chars_start s = s.
Proof.
  intros Hs. unfold strip_chars_start.
  destruct (String.length s); simpl; [done|]. by rewrite Hs.
Qed.

Lemma strip_chars_end_idemp s :
  strip_chars_end (strip_chars_end s) = strip_chars_end s.
Proof.
  induction s as [|c s IH]; [done|]. cbn [strip_chars_end]. cbv zeta.
  destruct (is_white_space (String c (strip_chars_end s))) eqn:Hw; [done|].
  cbn [strip_chars_end]. cbv zeta. by rewrite IH, Hw.
Qed.

Lemma strip_chars_end_prefix s : ∃ rest, s = strip_chars_end s +:+ rest.
Proof.
  induction s as [|c s [rest IH]]; [by exists EmptyString|].
  cbn [strip_chars_end]. cbv zeta.
  destruct (is_white_space _); [by exists (String c s)|].
  exists rest. change (String c s = String c (strip_chars_end s +:+ rest)).
  by f_equal.
Qed.

Lemma white_space_prefix_app s rest more :
  white_space_prefix s = Some rest →
  white_space_prefix (s +:+ more) = Some (rest +:+ more).
Proof.
  destruct s as [|c1 [|c2 [|c3 s]]]; simpl; repeat case_match;
    try discriminate; by intros [= <-].
Qed.

Lemma strip_chars_end_keeps_start s :
  white_space_prefix s = None → white_space_prefix (strip_chars_end s) = None.
Proof.
  intros Hs. destruct (strip_chars_end_prefix s) as [rest Hrest].
  destruct (white_space_prefix (strip_chars_end s)) as [r|] eqn:Hr; [|done].
  apply (white_space_prefix_app _ _ rest) in Hr. rewrite <- Hrest in Hr.
  congruence.
Qed.

Lemma strip_chars_idemp s : strip_chars (strip_chars s) = strip_chars s.
Proof.
  unfold strip_chars.
  rewrite (strip_chars_start_fixed (strip_chars_end _)).
  - apply strip_chars_end_idemp.
  - apply strip_chars_end_keeps_start, strip_chars_start_stripped.
Qed.

(** X15: the serial numbers of a returned frame are stripped: stripping
    one again leaves it as it is. *)
Theorem device_names_stripped cast_f32 cast_f64 df start out p :
  get_newscale_coordinates cast_f32 cast_f64 df start = Ok out → p ∈ out →
  strip_chars (Position.device_name p) = Position.device_name p.
Proof.
  intros Hout Hp.
  destruct (returned_row_origin _ _ _ _ _ _ Hout Hp) as (r & _ & _ & -> & _).
  apply strip_chars_idemp.
Qed.

Lemma mapM_Permutation {A B} (f : A → result B) l l' k :
  l ≡ₚ l' → mapM f l = Ok k → ∃ k', mapM f l' = Ok k' ∧ k ≡ₚ k'.
Proof.
  intros Hperm. revert k.
  induction Hperm as [|a l l' _ IH|a a' l|l l' l'' _ IH1 _ IH2]; intros k.
  - intros [= <-]. by exists [].
  - rewrite !mapM_cons. destruct (f a) as [b|]; [|discriminate].
    destruct (mapM f l) as [bs|]; [|discriminate].
    intros [= <-]. destruct (IH bs) as (bs' & -> & Hbs); [done|].
    exists (b :: bs'). split; [done|]. by constructor.
  - rewrite !mapM_cons.
    destruct (f a') as [b'|]; destruct (f a) as [b|]; try discriminate.
    destruct (mapM f l) as [bs|]; [|discriminate].
    intros [= <-]. exists (b :: b' :: bs). split; [done|]. apply perm_swap.
  - intros Hk. destruct (IH1 k Hk) as (k' & Hk' & Hperm1).
    destruct (IH2 k' Hk') as (k'' & Hk'' & Hperm2).
    exists k''. split; [done|]. by etrans.
Qed.

(** X16: the file-wide flag, or the failure to compute it, does not
    depend on the order of the rows in the log. *)
Theorem z_inverted_of_Permutation cast_f32 df df' start :
  df ≡ₚ df' →
  z_inverted_of cast_f32 df start = z_inverted_of cast_f32 df' start.
Proof.
  intros Hperm.
  assert (Hrecent : ∀ d d', d ≡ₚ d' → recent_df d start ≡ₚ recent_df d' start).
  { intros d d' Hd. unfold recent_df. by rewrite Hd. }
  assert (Hsome : ∀ d d' flag,
            d ≡ₚ d' → z_inverted_of cast_f32 d start = Ok flag →
            z_inverted_of cast_f32 d' start = Ok flag).
  { intros d d' flag Hd. unfold z_inverted_of, recent_z_values.
    destruct (mapM _ (recent_df d start)) as [zs|] eqn:Hzs; [|discriminate].
    destruct (mapM_Permutation _ _ _ _ (Hrecent d d' Hd) Hzs)
      as (zs' & -> & Hzs').
    intros [= <-]. simpl. f_equal.
    rewrite !is_z_inverted_occurrences. cbv zeta.
    assert (Hocc : ∀ k, occurrences k (np_round_hundreds <$> zs) =
                        occurrences k (np_round_hundreds <$> zs')).
    { intros k. apply occurrences_Permutation. by rewrite Hzs'. }
    by rewrite !Hocc. }
  destruct (z_inverted_of cast_f32 df start) as [flag|e] eqn:Hflag.
  - symmetry. by apply (Hsome df df').
  - destruct (z_inverted_of cast_f32 df' start) as [flag'|e'] eqn:Hflag'.
    + apply (Hsome df' df) in Hflag'; [congruence|done].
    + apply z_inverted_of_Err in Hflag, Hflag'. congruence.
Qed.
End returned_frames.

(** ** More runs of the sample logs *)

Lemma electrode_group_names_witness :
  ∃ out, resolve log_three_probes start_2023_10_23 = Ok out ∧
         Forall (λ p, ∃ letter,
                   letter ∈ PROBE_LETTERS ∧
                   Position.electrode_group_name p = "probe" +:+ letter) out.
Proof.
  destruct (resolve log_three_probes start_2023_10_23) as [out|e] eqn:Hout;
    [|vm_compute in Hout; discriminate].
  exists out. split; [reflexivity|].
  apply Forall_forall. intros p Hp.
  pose proof (electrode_group_names read_decimal read_decimal _ _ out p Hout Hp)
    as Hnames.
  destruct (SERIAL_NUM_TO_PROBE_LETTER !! Position.device_name p)
    as [letter|] eqn:Hletter; [by exists letter|].
  exfalso. vm_compute in Hout. injection Hout as <-.
  repeat (apply elem_of_cons in Hp as [->|Hp];
          [vm_compute in Hletter; discriminate|]).
  by apply elem_of_nil in Hp.
Defined.


Lemma malformed_log_iff_witness :
  (movement (clock 19653 16 40 0) " SN40900" " n/a")
    ∈ recent_df log_malformed_z start_2023_10_23 ∧
  read_decimal (strip_chars " n/a") = None ∧
  resolve log_malformed_z start_2023_10_23 = Err MalformedLogError.
Proof.
  assert (Hin : movement (clock 19653 16 40 0) " SN40900" " n/a"
                  ∈ recent_df log_malformed_z start_2023_10_23) by holds.
  split_and!; [exact Hin|run|].
  apply (malformed_log_iff read_decimal read_decimal). split; [holds|].
  left. exists (movement (clock 19653 16 40 0) " SN40900" " n/a").
  split; [exact Hin|run].
Defined.

Lemma returns_iff_witness :
  ∃ out, resolve log_three_probes start_2023_10_23 = Ok out.
Proof.
  apply (returns_iff read_decimal read_decimal). split_and!.
  - holds.
  - apply Forall_forall. holds.
  - apply Forall_forall. unfold coordinates_cast. holds.
  - intros _. apply Forall_forall.
    apply (Forall_impl (λ r, bool_decide
             (strip_chars (Row.device_name r)
                ∈ dom SERIAL_NUM_TO_PROBE_LETTER))).
    + holds.
    + intros r. apply bool_decide_unpack.
Defined.

Lemma row_count_exact_witness :
  ∃ out, resolve log_seven_devices start_2023_10_23 = Ok out ∧
         size (devices_before log_seven_devices start_2023_10_23) = 7%nat ∧
         length out = 6%nat.
Proof.
  destruct (resolve log_seven_devices start_2023_10_23) as [out|e] eqn:Hout;
    [|vm_compute in Hout; discriminate].
  exists out. split_and!; [reflexivity|run|].
  rewrite (row_count_exact read_decimal read_decimal _ _ out Hout). run.
Defined.

Lemma cap_keeps_latest_witness :
  ∃ out, resolve log_seven_devices start_2023_10_23 = Ok out ∧
         Forall (λ p, Position.device_name p ≠ "SN32148") out ∧
         Forall (λ p, clock 19653 13 0 0 ≤ Position.last_movement_dt p) out.
Proof.
  destruct (resolve log_seven_devices start_2023_10_23) as [out|e] eqn:Hout;
    [|vm_compute in Hout; discriminate].
  exists out.
  assert (Habsent : Forall (λ p, Position.device_name p ≠ "SN32148") out).
  { vm_compute in Hout. injection Hout as <-. repeat constructor; discriminate. }
  split_and!; [reflexivity|exact Habsent|].
  apply Forall_forall. intros p Hp.
  apply (cap_keeps_latest read_decimal read_decimal
           log_seven_devices start_2023_10_23 out
           (movement (clock 19653 13 0 0) " SN32148" " 3100.0")
           (clock 19653 13 0 0) p Hout).
  - holds.
  - reflexivity.
  - run.
  - apply (proj1 (Forall_forall _ _) Habsent).
  - exact Hp.
Defined.

Lemma empty_frame_iff_witness :
  (∀ e dt, e ∈ log_moved_after_start →
           Event.last_movement_dt e = Some dt → start_2023_10_23 ≤ dt) ∧
  resolve log_moved_after_start start_2023_10_23 = Ok [].
Proof.
  destruct (resolve log_moved_after_start start_2023_10_23) as [out|e] eqn:Hout;
    [|vm_compute in Hout; discriminate].
  assert (Hnone : ∀ e dt, e ∈ log_moved_after_start →
            Event.last_movement_dt e = Some dt → start_2023_10_23 ≤ dt).
  { intros e dt He Hdt. unfold log_moved_after_start in He.
    apply list_elem_of_singleton in He as ->. injection Hdt as <-.
    vm_compute. discriminate. }
  split; [exact Hnone|]. f_equal.
  exact (proj2 (empty_frame_iff read_decimal read_decimal _ _ out Hout) Hnone).
Defined.

Lemma virtual_columns_ignored_witness :
  Event.x_virtual <$> (blank_virtual <$> log_three_probes)
    ≠ Event.x_virtual <$> log_three_probes ∧
  resolve log_three_probes start_2023_10_23 =
  resolve (blank_virtual <$> log_three_probes) start_2023_10_23.
Proof.
  split; [vm_compute; discriminate|].
  apply (virtual_columns_ignored read_decimal read_decimal).
  apply Forall2_fmap_r, Forall_Forall2_diag, Forall_forall.
  intros e _. by repeat split.
Defined.

Lemma flag_sample_nonempty_witness :
  ∃ out z_values,
    resolve log_three_probes start_2023_10_23 = Ok out ∧
    length z_values = 5%nat ∧
    recent_z_values read_decimal log_three_probes start_2023_10_23
      = Ok z_values.
Proof.
  destruct (resolve log_three_probes start_2023_10_23) as [out|e] eqn:Hout;
    [|vm_compute in Hout; discriminate].
  destruct (flag_sample_nonempty read_decimal read_decimal _ _ out Hout)
    as (zs & _ & Hzs & _).
  exists out, zs. split_and!; [reflexivity| |exact Hzs].
  vm_compute in Hzs. by injection Hzs as <-.
Defined.

Lemma device_names_stripped_witness :
  ∃ out, resolve log_three_probes start_2023_10_23 = Ok out ∧
         Forall (λ p, strip_chars (Position.device_name p)
                      = Position.device_name p) out.
Proof.
  destruct (resolve log_three_probes start_2023_10_23) as [out|e] eqn:Hout;
    [|vm_compute in Hout; discriminate].
  exists out. split; [reflexivity|]. apply Forall_forall. intros p Hp.
  exact (device_names_stripped read_decimal read_decimal _ _ out p Hout Hp).
Defined.

Lemma z_inverted_of_Permutation_witness :
  log_three_probes ≡ₚ reverse log_three_probes ∧
  z_inverted_of read_decimal (reverse log_three_probes) start_2023_10_23
    = Ok true.
Proof.
  assert (Hperm : log_three_probes ≡ₚ reverse log_three_probes).
  { symmetry. apply reverse_Permutation. }
  split; [exact Hperm|].
  rewrite <- (z_inverted_of_Permutation read_decimal _ _ start_2023_10_23 Hperm).
  run.
Defined.
